(** * ktail: the reconciliation controller (controller.go)

    A shallow embedding of [controller.go] and the properties of its
    inclusion policy, start-timestamp resolution, session registry and
    run loop.

    Conventions of the embedding:
    - Go structs are records, one module per struct so that the fields
      keep their Go names ([Pod.Name], [Container.Name], ...).
    - A nilable pointer is an [option].
    - [ctl.tailers], a Go [map[string]*ContainerTailer], is a
      [gmap string ContainerTailer.t].
    - Methods on [*Controller] take the controller and return the
      updated one.  Every call that leaves the controller (callbacks,
      the Tailer, the pod lister, goroutine launches) is recorded, newest
      first, in a ghost field [trace].
    - [addContainer] and [deleteContainer] hold the controller's mutex
      from entry to return, so each is one atomic step; a concurrent
      execution is a sequence of such steps. *)

From Stdlib Require Import ZArith String List Bool Lia.
From stdpp Require Import base option list strings gmap.

Local Open Scope string_scope.
Local Open Scope list_scope.

(* ===================================================================== *)
(** * Go's [time] package: the wall-clock part the controller uses *)
(* ===================================================================== *)

Module time.

(** An instant: seconds and nanoseconds within the second.  Monotonic
    readings and locations are not modelled. *)
Record Time := mkTime { sec : Z; nsec : Z }.

(** A [Duration] is a count of nanoseconds. *)
Definition Duration := Z.
Definition Second : Duration := 1000000000%Z.

(** [t.Before(u)]: compare seconds, then nanoseconds. *)
Definition Before (t u : Time) : bool :=
  (sec t <? sec u)%Z || ((sec t =? sec u)%Z && (nsec t <? nsec u)%Z).

(** [t.Add(d)]: Go splits [d] with truncating division and carries the
    nanoseconds into the seconds. *)
Definition Add (t : Time) (d : Duration) : Time :=
  let dsec := Z.quot d 1000000000 in
  let n := (nsec t + Z.rem d 1000000000)%Z in
  if (1000000000 <=? n)%Z then mkTime (sec t + (dsec + 1)) (n - 1000000000)
  else if (n <? 0)%Z then mkTime (sec t + (dsec - 1)) (n + 1000000000)
  else mkTime (sec t + dsec) n.

(** Nanoseconds since the epoch. *)
Definition UnixNano (t : Time) : Z := (sec t * 1000000000 + nsec t)%Z.

End time.

(* ===================================================================== *)
(** * The Kubernetes API objects the controller reads *)
(* ===================================================================== *)

(** [v1.PodPhase] is a string type. *)
Definition PodPhase := string.
Definition PodPending : PodPhase := "Pending".
Definition PodRunning : PodPhase := "Running".

Module ContainerStateWaiting.
Record t := mk { Reason : string }.
End ContainerStateWaiting.

Module ContainerStateRunning.
Record t := mk { StartedAt : time.Time }.
End ContainerStateRunning.

Module ContainerStateTerminated.
Record t := mk { ExitCode : Z }.
End ContainerStateTerminated.

(** The three members are pointers in Go; at most one is set by the
    kubelet, the type allows any combination. *)
Module ContainerState.
Record t := mk {
  Waiting : option ContainerStateWaiting.t;
  Running : option ContainerStateRunning.t;
  Terminated : option ContainerStateTerminated.t
}.
Definition zero : t := mk None None None.
End ContainerState.

Module ContainerStatus.
Record t := mk { Name : string; State : ContainerState.t }.
(** Go's zero value, what [make] fills a slice with. *)
Definition zero : t := mk "" ContainerState.zero.
End ContainerStatus.

Module Container.
Record t := mk { Name : string; Image : string }.
End Container.

Module PodSpec.
Record t := mk {
  InitContainers : list Container.t;
  Containers : list Container.t
}.
End PodSpec.

Module PodStatus.
Record t := mk {
  Phase : PodPhase;
  InitContainerStatuses : list ContainerStatus.t;
  ContainerStatuses : list ContainerStatus.t
}.
End PodStatus.

Module Pod.
Record t := mk {
  Namespace : string;
  Name : string;
  Spec : PodSpec.t;
  Status : PodStatus.t
}.
End Pod.

(* ===================================================================== *)
(** * Collaborators declared outside controller.go *)
(* ===================================================================== *)

(** [Matcher] is an interface with one method, [Match], which the
    controller calls on a pod and on a container.  Its implementations
    are not part of this file, so a matcher is any such function. *)
Inductive MatchTarget :=
| OfPod (pod : Pod.t)
| OfContainer (container : Container.t).

Record Matcher := { Match : MatchTarget -> bool }.

(** A [ContainerTailer] as [NewContainerTailer] is called here: it is
    built from copies of the pod and the container and from the start
    timestamp.  (The client and the log-event sink are the same for every
    tailer of a controller and are left out.) *)
Module ContainerTailer.
Record t := mk {
  pod : Pod.t;
  container : Container.t;
  fromTimestamp : option time.Time
}.
End ContainerTailer.

Definition NewContainerTailer (pod : Pod.t) (container : Container.t)
    (fromTimestamp : option time.Time) : ContainerTailer.t :=
  ContainerTailer.mk pod container fromTimestamp.

(** Go [error] values that reach [Run]: whatever the lister returned, and
    the wrapper [fmt.Errorf("listing pods in %q: %w", ns, err)]. *)
Inductive error :=
| ErrOpaque (msg : string)
| ErrListingPods (ns : string) (cause : error).

(** [errors.Unwrap]. *)
Definition Unwrap (e : error) : option error :=
  match e with
  | ErrOpaque _ => None
  | ErrListingPods _ cause => Some cause
  end.

(** What [podListWatcher.List] hands back: an error, a [*v1.PodList], an
    [*internalversion.List] of arbitrary objects, or something else. *)
Inductive RuntimeObject :=
| ObjPod (pod : Pod.t)
| ObjOther (kind : string).

Inductive ListResponse :=
| ListFailed (err : error)
| ListPodList (items : list Pod.t)
| ListInternalList (items : list RuntimeObject)
| ListOtherType (ty : string).

(** The client, reduced to the one request [Run] makes: the response to
    the [i]-th listing of the run, issued for namespace [ns]. *)
Record KubeClient := { ListPods : nat -> string -> ListResponse }.

(* ===================================================================== *)
(** * The controller *)
(* ===================================================================== *)

Record ControllerOptions := {
  Namespaces : list string;
  InclusionMatcher : Matcher;
  ExclusionMatcher : Matcher;
  SinceStart : bool;
  Since : option time.Time;
  ContainerName : string
}.

(** Calls that leave the controller. *)
Inductive Event :=
| CallOnEnter (pod : Pod.t) (container : Container.t)
    (initialAddPhase : bool) (ret : bool)
| CallGetStartTimestamp (pod : Pod.t) (container : Container.t)
    (initialAdd : bool)
| CallNewContainerTailer (key : string) (tailer : ContainerTailer.t)
| GoTailerRun (key : string)
| CallTailerStop (key : string) (tailer : ContainerTailer.t)
| CallOnExit (pod : Pod.t) (container : Container.t)
| CallOnNothingDiscovered
| CallList (ns : string)
| GoInformerRun (ns : string)
| CloseStopCh.

Definition Trace := list Event.

(** The embedder's callbacks.  [OnEnter] is the only one whose result the
    controller uses; it may depend on everything that happened so far.
    [OnExit], [OnError], [OnEvent] and [OnNothingDiscovered] return
    nothing: a call of one of them is an [Event]. *)
Record Callbacks := {
  OnEnter : Trace -> Pod.t -> Container.t -> bool -> bool
}.

Record Controller := mkController {
  options : ControllerOptions;
  client : KubeClient;
  tailers : gmap string ContainerTailer.t;
  callbacks : Callbacks;
  (* ghost state *)
  Now : Trace -> time.Time;       (* what [time.Now()] returns *)
  trace : Trace
}.

Definition NewController (client : KubeClient) (options : ControllerOptions)
    (callbacks : Callbacks) (now : Trace -> time.Time) : Controller :=
  mkController options client ∅ callbacks now [].

Definition emit (e : Event) (ctl : Controller) : Controller :=
  mkController (options ctl) (client ctl) (tailers ctl) (callbacks ctl)
    (Now ctl) (e :: trace ctl).

Definition setTailers (m : gmap string ContainerTailer.t) (ctl : Controller)
    : Controller :=
  mkController (options ctl) (client ctl) m (callbacks ctl)
    (Now ctl) (trace ctl).

(** [fmt.Sprintf("%s/%s/%s", pod.Namespace, pod.Name, container.Name)] *)
Definition buildKey (pod : Pod.t) (container : Container.t) : string :=
  Pod.Namespace pod +:+ "/" +:+ Pod.Name pod +:+ "/" +:+ Container.Name container.

(** [make([]v1.ContainerStatus, n)] is a slice of LENGTH [n] holding [n]
    zero values; both [append]s add behind them. *)
Definition allContainerStatusesForPod (pod : Pod.t) : list ContainerStatus.t :=
  let statuses :=
    repeat ContainerStatus.zero
      (length (PodStatus.ContainerStatuses (Pod.Status pod))
       + length (PodStatus.InitContainerStatuses (Pod.Status pod))) in
  (statuses ++ PodStatus.InitContainerStatuses (Pod.Status pod))
    ++ PodStatus.ContainerStatuses (Pod.Status pod).

(** [p != nil] *)
Definition notNil {A : Type} (p : option A) : bool :=
  match p with Some _ => true | None => false end.

(** The condition of the status loop of [shouldIncludeContainer]. *)
Definition acknowledged (container : Container.t) (s : ContainerStatus.t)
    : bool :=
  String.eqb (ContainerStatus.Name s) (Container.Name container)
  && (notNil (ContainerState.Waiting (ContainerStatus.State s))
      || notNil (ContainerState.Terminated (ContainerStatus.State s))
      || notNil (ContainerState.Running (ContainerStatus.State s))).

Definition shouldIncludeContainer (ctl : Controller) (pod : Pod.t)
    (container : Container.t) : bool :=
  if negb (String.eqb (PodStatus.Phase (Pod.Status pod)) PodRunning
           || String.eqb (PodStatus.Phase (Pod.Status pod)) PodPending)
  then false
  else
    (* for ... { if ... { running = true; break } } *)
    let running := existsb (acknowledged container)
                     (allContainerStatusesForPod pod) in
    if negb running then false
    else if negb (String.eqb (ContainerName (options ctl)) "")
            && negb (String.eqb (ContainerName (options ctl))
                       (Container.Name container))
    then false
    else if Match (ExclusionMatcher (options ctl)) (OfPod pod) then false
    else if negb (Match (InclusionMatcher (options ctl)) (OfPod pod)
                  || Match (InclusionMatcher (options ctl))
                       (OfContainer container))
    then false
    else negb (Match (ExclusionMatcher (options ctl)) (OfContainer container)).

(** The body of the [default] loop of [getStartTimestamp]: [t] is the
    earliest start seen so far, [nil] at first. *)
Definition earliestRunning (container : Container.t) (t : option time.Time)
    (status : ContainerStatus.t) : option time.Time :=
  if String.eqb (ContainerStatus.Name status) (Container.Name container)
  then
    match ContainerState.Running (ContainerStatus.State status) with
    | Some running =>
        let startTime := ContainerStateRunning.StartedAt running in
        match t with
        | None => Some startTime
        | Some t0 => if time.Before startTime t0 then Some startTime else t
        end
    | None => t
    end
  else t.

Definition getStartTimestamp (ctl : Controller) (pod : Pod.t)
    (container : Container.t) (initialAdd : bool)
    : option time.Time * bool :=
  if SinceStart (options ctl) then (None, true)
  else
    match Since (options ctl) with
    | Some since => (Some since, true)
    | None =>
        if initialAdd then
          let now := time.Add (Now ctl (trace ctl)) (time.Second * -5)%Z in
          (Some now, true)
        else
          match fold_left (earliestRunning container)
                  (allContainerStatusesForPod pod) None with
          | None => (None, false)
          | Some t => (Some t, true)
          end
    end.

Definition addContainer (ctl : Controller) (pod : Pod.t)
    (container : Container.t) (initialAdd : bool) : Controller :=
  let key := buildKey pod container in
  match tailers ctl !! key with
  | Some _ => ctl
  | None =>
      let entered :=
        OnEnter (callbacks ctl) (trace ctl) pod container initialAdd in
      let ctl := emit (CallOnEnter pod container initialAdd entered) ctl in
      if negb entered then ctl
      else
        let ctl := emit (CallGetStartTimestamp pod container initialAdd) ctl in
        match getStartTimestamp ctl pod container initialAdd with
        | (_, false) => ctl
        | (fromTimestamp, true) =>
            let tailer := NewContainerTailer pod container fromTimestamp in
            let ctl := emit (CallNewContainerTailer key tailer) ctl in
            let ctl := setTailers (<[key := tailer]> (tailers ctl)) ctl in
            emit (GoTailerRun key) ctl
        end
  end.

Definition deleteContainer (ctl : Controller) (pod : Pod.t)
    (container : Container.t) : Controller :=
  let key := buildKey pod container in
  match tailers ctl !! key with
  | Some tailer =>
      let ctl := setTailers (delete key (tailers ctl)) ctl in
      let ctl := emit (CallTailerStop key tailer) ctl in
      emit (CallOnExit pod container) ctl
  | None => ctl
  end.

(** One iteration of either loop of [onInitialAdd]; the loop state is the
    controller and the local [added]. *)
Definition initialAddStep (pod : Pod.t) (s : Controller * bool)
    (container : Container.t) : Controller * bool :=
  if shouldIncludeContainer (fst s) pod container
  then (addContainer (fst s) pod container true, true)
  else s.

Definition onInitialAdd (ctl : Controller) (pod : Pod.t) : Controller * bool :=
  let s := fold_left (initialAddStep pod)
             (PodSpec.InitContainers (Pod.Spec pod)) (ctl, false) in
  fold_left (initialAddStep pod) (PodSpec.Containers (Pod.Spec pod)) s.

Definition addStep (pod : Pod.t) (ctl : Controller) (container : Container.t)
    : Controller :=
  if shouldIncludeContainer ctl pod container
  then addContainer ctl pod container false
  else ctl.

Definition onAdd (ctl : Controller) (pod : Pod.t) : Controller :=
  let ctl := fold_left (addStep pod)
               (PodSpec.InitContainers (Pod.Spec pod)) ctl in
  fold_left (addStep pod) (PodSpec.Containers (Pod.Spec pod)) ctl.

(** The inner loop of [onUpdate]: the first of [containers] with the
    status' name, or [nil]. *)
Definition findContainer (containers : list Container.t) (name : string)
    : option Container.t :=
  find (fun c => String.eqb (Container.Name c) name) containers.

Definition updateStep (pod : Pod.t) (ctl : Controller)
    (containerStatus : ContainerStatus.t) : Controller :=
  match findContainer (PodSpec.Containers (Pod.Spec pod))
          (ContainerStatus.Name containerStatus) with
  | None => ctl
  | Some container =>
      if shouldIncludeContainer ctl pod container
      then addContainer ctl pod container false
      else deleteContainer ctl pod container
  end.

Definition onUpdate (ctl : Controller) (pod : Pod.t) : Controller :=
  fold_left (updateStep pod) (allContainerStatusesForPod pod) ctl.

Definition onDelete (ctl : Controller) (pod : Pod.t) : Controller :=
  fold_left (fun ctl container => deleteContainer ctl pod container)
    (PodSpec.Containers (Pod.Spec pod)) ctl.

(** ** Run *)

(** How [Run] ends: [return fmt.Errorf(...)], [panic(...)], or
    [return ctx.Err()] once the context is cancelled. *)
Inductive RunResult :=
| RunError (err : error)
| RunPanic (msg : string)
| RunCtxErr.

(** The loop state of the namespace loop while it lists pods: the
    controller and the local [discoveredAny]. *)
Definition listedPod (s : Controller * bool) (pod : Pod.t)
    : Controller * bool :=
  let r := onInitialAdd (fst s) pod in
  (fst r, if snd r then true else snd s).

Definition listedItem (s : Controller * bool) (item : RuntimeObject)
    : Controller * bool :=
  match item with
  | ObjPod pod => listedPod s pod
  | ObjOther _ => s
  end.

(** The namespace loop from its [i]-th iteration on; [inr] is an early
    exit from [Run]. *)
Fixpoint runNamespaces (i : nat) (namespaces : list string)
    (discoveredAny : bool) (ctl : Controller)
    : Controller * (bool + RunResult) :=
  match namespaces with
  | [] => (ctl, inl discoveredAny)
  | ns :: rest =>
      let ctl := emit (CallList ns) ctl in
      match ListPods (client ctl) i ns with
      | ListFailed err => (ctl, inr (RunError (ErrListingPods ns err)))
      | ListPodList items =>
          let s := fold_left listedPod items (ctl, discoveredAny) in
          runNamespaces (S i) rest (snd s) (emit (GoInformerRun ns) (fst s))
      | ListInternalList items =>
          let s := fold_left listedItem items (ctl, discoveredAny) in
          runNamespaces (S i) rest (snd s) (emit (GoInformerRun ns) (fst s))
      | ListOtherType ty =>
          (ctl, inr (RunPanic
             ("unexpected return type " +:+ ty +:+ " when listing pods")))
      end
  end.

(** [Run] on its own goroutine.  After the namespace loop it blocks on
    [ctx.Done()]; the model continues at the cancellation.  The deferred
    [close(stopCh)] runs on every way out.  What the informers launched
    here deliver on their goroutines ([onAdd], [onUpdate], [onDelete]) is
    not part of [Run]: those are the [Action]s below. *)
Definition Run (ctl : Controller) : Controller * RunResult :=
  match runNamespaces 0 (Namespaces (options ctl)) false ctl with
  | (ctl, inr r) => (emit CloseStopCh ctl, r)
  | (ctl, inl discoveredAny) =>
      let ctl :=
        if negb discoveredAny then emit CallOnNothingDiscovered ctl else ctl in
      (emit CloseStopCh ctl, RunCtxErr)
  end.

(** ** Sequences of calls *)

(** What can happen to a controller: a direct session operation, or one
    of the pod notifications. *)
Inductive Action :=
| DoAddContainer (pod : Pod.t) (container : Container.t) (initialAdd : bool)
| DoDeleteContainer (pod : Pod.t) (container : Container.t)
| DoInitialAdd (pod : Pod.t)
| DoAdd (pod : Pod.t)
| DoUpdate (pod : Pod.t)
| DoDelete (pod : Pod.t).

Definition perform (ctl : Controller) (a : Action) : Controller :=
  match a with
  | DoAddContainer pod container initialAdd =>
      addContainer ctl pod container initialAdd
  | DoDeleteContainer pod container => deleteContainer ctl pod container
  | DoInitialAdd pod => fst (onInitialAdd ctl pod)
  | DoAdd pod => onAdd ctl pod
  | DoUpdate pod => onUpdate ctl pod
  | DoDelete pod => onDelete ctl pod
  end.

Definition performAll (ctl : Controller) (actions : list Action) : Controller :=
  fold_left perform actions ctl.

(** ** Reading a trace *)

(** Tailers constructed under [key] and not stopped since. *)
Fixpoint live (key : string) (tr : Trace) : nat :=
  match tr with
  | [] => 0
  | CallNewContainerTailer k _ :: older =>
      if String.eqb k key then S (live key older) else live key older
  | CallTailerStop k _ :: older =>
      if String.eqb k key then pred (live key older) else live key older
  | _ :: older => live key older
  end.

(** [OnEnter] was only ever called for a container with no live tailer. *)
Fixpoint enterGated (tr : Trace) : Prop :=
  match tr with
  | [] => True
  | CallOnEnter pod container _ _ :: older =>
      live (buildKey pod container) older = 0 ∧ enterGated older
  | _ :: older => enterGated older
  end.

Definition isNothingDiscovered (e : Event) : bool :=
  match e with CallOnNothingDiscovered => true | _ => false end.

Definition isNewTailer (e : Event) : bool :=
  match e with CallNewContainerTailer _ _ => true | _ => false end.

Definition isOnEnter (e : Event) : bool :=
  match e with CallOnEnter _ _ _ _ => true | _ => false end.

Definition isTimestamp (e : Event) : bool :=
  match e with CallGetStartTimestamp _ _ _ => true | _ => false end.

Definition isStop (e : Event) : bool :=
  match e with CallTailerStop _ _ => true | _ => false end.

Definition isOnExit (e : Event) : bool :=
  match e with CallOnExit _ _ => true | _ => false end.

Definition calls (which : Event -> bool) (tr : Trace) : nat :=
  length (List.filter which tr).

(* ===================================================================== *)
(** * Vocabulary of the properties *)
(* ===================================================================== *)

(** The pod reports some state for the container: one of its init or
    regular status entries carries the container's name and has a state
    set. *)
Definition hasStatus (pod : Pod.t) (container : Container.t) : Prop :=
  ∃ s, s ∈ PodStatus.InitContainerStatuses (Pod.Status pod)
           ++ PodStatus.ContainerStatuses (Pod.Status pod)
     ∧ ContainerStatus.Name s = Container.Name container
     ∧ (is_Some (ContainerState.Waiting (ContainerStatus.State s))
        ∨ is_Some (ContainerState.Running (ContainerStatus.State s))
        ∨ is_Some (ContainerState.Terminated (ContainerStatus.State s))).

(** The start times a list of status entries reports for the container:
    the [StartedAt] of every entry that carries the container's name and
    is in the running state, in the order of the entries. *)
Definition runningStartsIn (container : Container.t)
    (l : list ContainerStatus.t) : list time.Time :=
  flat_map
    (fun s =>
       if String.eqb (ContainerStatus.Name s) (Container.Name container)
       then match ContainerState.Running (ContainerStatus.State s) with
            | Some running => [ContainerStateRunning.StartedAt running]
            | None => []
            end
       else [])
    l.

(** The start times the pod reports for the container, over its init
    status entries followed by its regular ones. *)
Definition runningStarts (pod : Pod.t) (container : Container.t)
    : list time.Time :=
  runningStartsIn container
    (PodStatus.InitContainerStatuses (Pod.Status pod)
     ++ PodStatus.ContainerStatuses (Pod.Status pod)).

(** [t] is in [ts] and none of [ts] is before it. *)
Definition earliestOf (t : time.Time) (ts : list time.Time) : Prop :=
  t ∈ ts ∧ ∀ u, u ∈ ts -> time.Before u t = false.

(** The registry and the trace agree: under every key at most one tailer
    is live, exactly when the key is registered; and [OnEnter] was never
    called for a container whose tailer was live. *)
Definition consistent (ctl : Controller) : Prop :=
  (∀ key, live key (trace ctl)
          = match tailers ctl !! key with Some _ => 1 | None => 0 end)
  ∧ enterGated (trace ctl).

(** [Stop] calls on tailers registered under [key]. *)
Definition isStopOf (key : string) (e : Event) : bool :=
  match e with
  | CallTailerStop k _ => String.eqb k key
  | _ => false
  end.

(** The events [addContainer] and [deleteContainer] can produce when
    called for [container] of [pod]. *)
Definition concerns (pod : Pod.t) (container : Container.t) (e : Event)
    : Prop :=
  match e with
  | CallOnEnter p c _ _ => p = pod ∧ c = container
  | CallGetStartTimestamp p c _ => p = pod ∧ c = container
  | CallNewContainerTailer k t =>
      k = buildKey pod container
      ∧ ContainerTailer.pod t = pod ∧ ContainerTailer.container t = container
  | GoTailerRun k => k = buildKey pod container
  | CallTailerStop k _ => k = buildKey pod container
  | CallOnExit p c => p = pod ∧ c = container
  | _ => False
  end.

(** [ctl'] is [ctl] after some calls: same configuration, and a trace
    grown by events that all satisfy [P]. *)
Definition grows (P : Event -> Prop) (ctl ctl' : Controller) : Prop :=
  options ctl' = options ctl ∧ client ctl' = client ctl
  ∧ callbacks ctl' = callbacks ctl ∧ Now ctl' = Now ctl
  ∧ ∃ new, trace ctl' = new ++ trace ctl ∧ Forall P new.

(** An event produced for one of the containers [cs] of [pod]. *)
Definition concernsAny (pod : Pod.t) (cs : list Container.t) (e : Event)
    : Prop :=
  ∃ c, c ∈ cs ∧ concerns pod c e.

(** Every registered tailer satisfies [Q]. *)
Definition registryAll (Q : ContainerTailer.t -> Prop) (ctl : Controller)
    : Prop :=
  ∀ key tailer, tailers ctl !! key = Some tailer -> Q tailer.

(** The containers of a pod that an add pass hands to [addContainer]: the
    init containers and then the regular ones, in declaration order, those
    that pass the inclusion policy. *)
Definition included (ctl : Controller) (pod : Pod.t) : list Container.t :=
  List.filter (shouldIncludeContainer ctl pod)
    (PodSpec.InitContainers (Pod.Spec pod)
     ++ PodSpec.Containers (Pod.Spec pod)).

(** [addContainer] on each of [cs] in turn. *)
Definition addAll (initialAdd : bool) (pod : Pod.t) (ctl : Controller)
    (cs : list Container.t) : Controller :=
  fold_left (fun ctl c => addContainer ctl pod c initialAdd) cs ctl.

(** The responses to the listings of a run that starts its [i]-th
    iteration with [namespaces] left. *)
Fixpoint responsesFrom (cl : KubeClient) (i : nat) (namespaces : list string)
    : list ListResponse :=
  match namespaces with
  | [] => []
  | ns :: rest => ListPods cl i ns :: responsesFrom cl (S i) rest
  end.

(** A response the namespace loop goes on after: a pod list or a list of
    objects. *)
Definition isListing (r : ListResponse) : bool :=
  match r with
  | ListPodList _ | ListInternalList _ => true
  | ListFailed _ | ListOtherType _ => false
  end.

Definition podsAmong (items : list RuntimeObject) : list Pod.t :=
  flat_map (fun item => match item with
                        | ObjPod pod => [pod]
                        | ObjOther _ => []
                        end) items.

(** The pods of a response. *)
Definition podsOf (r : ListResponse) : list Pod.t :=
  match r with
  | ListPodList items => items
  | ListInternalList items => podsAmong items
  | ListFailed _ | ListOtherType _ => []
  end.

(** Some container of the pod passes the inclusion policy. *)
Definition discovered (ctl : Controller) (pod : Pod.t) : bool :=
  match included ctl pod with [] => false | _ => true end.

(** The events of the namespace loop over [namespaces]: those of the
    initial-add pass, and a listing and a subscription per namespace. *)
Definition loopEvent (namespaces : list string) (e : Event) : Prop :=
  (∃ pod c, concerns pod c e)
  ∨ (∃ ns, ns ∈ namespaces ∧ (e = CallList ns ∨ e = GoInformerRun ns)).

(** The events of the namespace loop that are not calls for a
    container. *)
Definition bookkeeping (e : Event) : Prop :=
  match e with
  | CallList _ | GoInformerRun _ => True
  | _ => False
  end.

(* ===================================================================== *)
(** * Sample objects *)
(* ===================================================================== *)

Module Sample.

Definition t0 : time.Time := time.mkTime 1700000000 250.
Definition t1 : time.Time := time.mkTime 1700000100 0.
Definition t2 : time.Time := time.mkTime 1700000200 0.

Definition runningSince (name : string) (t : time.Time) : ContainerStatus.t :=
  ContainerStatus.mk name
    (ContainerState.mk None (Some (ContainerStateRunning.mk t)) None).

Definition waiting (name : string) : ContainerStatus.t :=
  ContainerStatus.mk name
    (ContainerState.mk (Some (ContainerStateWaiting.mk "PodInitializing"))
       None None).

Definition initA : Container.t := Container.mk "init-a" "busybox".
Definition c1 : Container.t := Container.mk "c1" "nginx".
Definition c2 : Container.t := Container.mk "c2" "redis".

(** Pod "p1" of namespace "ns1": one init container and two regular
    ones, all acknowledged, "c1" reported running twice. *)
Definition p1 : Pod.t :=
  Pod.mk "ns1" "p1"
    (PodSpec.mk [initA] [c1; c2])
    (PodStatus.mk PodRunning
       [runningSince "init-a" t0]
       [runningSince "c1" t2; runningSince "c1" t1; waiting "c2"]).

(** A pod with a single regular container and its single status. *)
Definition single : Pod.t :=
  Pod.mk "ns1" "single"
    (PodSpec.mk [] [c1])
    (PodStatus.mk PodRunning [] [runningSince "c1" t1]).

(** The same pod once it has completed. *)
Definition singleSucceeded : Pod.t :=
  Pod.mk "ns1" "single"
    (PodSpec.mk [] [c1])
    (PodStatus.mk "Succeeded" [] [runningSince "c1" t1]).

Definition matchAll : Matcher := {| Match := fun _ => true |}.
Definition matchNone : Matcher := {| Match := fun _ => false |}.

(** Matches the container named "c1" and nothing else. *)
Definition matchC1 : Matcher :=
  {| Match := fun target =>
       match target with
       | OfPod _ => false
       | OfContainer c => String.eqb (Container.Name c) "c1"
       end |}.

Definition opts (namespaces : list string) (incl : Matcher) : ControllerOptions :=
  {| Namespaces := namespaces;
     InclusionMatcher := incl;
     ExclusionMatcher := matchNone;
     SinceStart := false;
     Since := None;
     ContainerName := "" |}.

Definition optsSinceStart : ControllerOptions :=
  {| Namespaces := ["ns1"];
     InclusionMatcher := matchAll;
     ExclusionMatcher := matchNone;
     SinceStart := true;
     Since := Some t0;
     ContainerName := "" |}.

Definition optsSince : ControllerOptions :=
  {| Namespaces := ["ns1"];
     InclusionMatcher := matchAll;
     ExclusionMatcher := matchNone;
     SinceStart := false;
     Since := Some t0;
     ContainerName := "" |}.

Definition accept : Callbacks := {| OnEnter := fun _ _ _ _ => true |}.
Definition veto : Callbacks := {| OnEnter := fun _ _ _ _ => false |}.

Definition noon : Trace -> time.Time := fun _ => time.mkTime 1700001000 0.

(** Every listing returns [pods]. *)
Definition serves (pods : list Pod.t) : KubeClient :=
  {| ListPods := fun _ _ => ListPodList pods |}.

(** The first listing returns [pods], every later one fails. *)
Definition servesOnce (pods : list Pod.t) : KubeClient :=
  {| ListPods := fun i _ =>
       match i with
       | O => ListPodList pods
       | S _ => ListFailed (ErrOpaque "connection refused")
       end |}.

Definition fresh (namespaces : list string) (cl : KubeClient)
    (cb : Callbacks) : Controller :=
  NewController cl (opts namespaces matchAll) cb noon.

(** One namespace, one pod with an included container, and an embedder
    that vetoes every start. *)
Definition vetoed : Controller :=
  fresh ["ns1"] (serves [single]) veto.

(** Two namespaces in which the only pod has completed. *)
Definition quiet : Controller :=
  fresh ["ns1"; "ns2"] (serves [singleSucceeded]) accept.

(** Two namespaces; the listing of the second fails. *)
Definition failing : Controller :=
  fresh ["ns1"; "ns2"] (servesOnce [p1]) accept.

(** A controller that has been through the initial-add pass of [p1]:
    "init-a", "c1" and "c2" are registered. *)
Definition started : Controller :=
  fst (onInitialAdd (fresh ["ns1"] (serves [p1]) accept) p1).

Definition sinceStart : Controller :=
  NewController (serves [p1]) optsSinceStart accept noon.

Definition since : Controller :=
  NewController (serves [p1]) optsSince accept noon.

End Sample.


(* ===================================================================== *)
(** * Vocabulary of the further properties *)
(* ===================================================================== *)

(** The string holds a "/". *)
Fixpoint hasSlash (s : string) : bool :=
  match s with
  | EmptyString => false
  | String a rest => String.eqb (String a EmptyString) "/" || hasSlash rest
  end.

(** [OnExit] calls for a container registered under [key]. *)
Definition isExitOf (key : string) (e : Event) : bool :=
  match e with
  | CallOnExit p c => String.eqb (buildKey p c) key
  | _ => false
  end.

Definition isClose (e : Event) : bool :=
  match e with CloseStopCh => true | _ => false end.

Definition isGoRun (e : Event) : bool :=
  match e with GoTailerRun _ => true | _ => false end.

Definition isBookkeeping (e : Event) : bool :=
  match e with CallList _ | GoInformerRun _ => true | _ => false end.

(** The events that start a session, as opposed to those that end one. *)
Definition startEvent (e : Event) : Prop :=
  match e with
  | CallOnEnter _ _ _ _ | CallGetStartTimestamp _ _ _
  | CallNewContainerTailer _ _ | GoTailerRun _ => True
  | _ => False
  end.

(** The pod notifications among the actions: the calls that go through
    the inclusion policy. *)
Definition isNotification (a : Action) : bool :=
  match a with
  | DoInitialAdd _ | DoAdd _ | DoUpdate _ | DoDelete _ => true
  | DoAddContainer _ _ _ | DoDeleteContainer _ _ => false
  end.

(** Every tailer is registered under the key of its own pod and
    container. *)
Definition registryKeyed (ctl : Controller) : Prop :=
  ∀ key tailer, tailers ctl !! key = Some tailer ->
    buildKey (ContainerTailer.pod tailer) (ContainerTailer.container tailer)
    = key.

(** The tailer's pod and container, as stored, pass the inclusion policy
    of [ctl]. *)
Definition passesPolicy (ctl : Controller) (t : ContainerTailer.t) : Prop :=
  shouldIncludeContainer ctl (ContainerTailer.pod t)
    (ContainerTailer.container t) = true.

(** The counts of calls in the trace add up with the registry. *)
Definition accounted (ctl : Controller) : Prop :=
  size (tailers ctl) + calls isStop (trace ctl)
  = calls isNewTailer (trace ctl)
  ∧ calls isOnExit (trace ctl) = calls isStop (trace ctl)
  ∧ calls isGoRun (trace ctl) = calls isNewTailer (trace ctl).

(** [ctl'] still has every entry of [ctl], and no tailer was stopped nor
    [OnExit] called in between. *)
Definition nothingStopped (ctl ctl' : Controller) : Prop :=
  (∀ key tailer, tailers ctl !! key = Some tailer ->
                 tailers ctl' !! key = Some tailer)
  ∧ calls isStop (trace ctl') = calls isStop (trace ctl)
  ∧ calls isOnExit (trace ctl') = calls isOnExit (trace ctl).

(** The listings and subscriptions of a run over [namespaces], in the
    order they happen. *)
Definition subscriptions (namespaces : list string) : Trace :=
  flat_map (fun ns => [CallList ns; GoInformerRun ns]) namespaces.

(** The first response of a run that ends it early, as the result [Run]
    then has. *)
Fixpoint firstFailure (cl : KubeClient) (i : nat) (namespaces : list string)
    : option RunResult :=
  match namespaces with
  | [] => None
  | ns :: rest =>
      match ListPods cl i ns with
      | ListFailed err => Some (RunError (ErrListingPods ns err))
      | ListOtherType ty =>
          Some (RunPanic
                  ("unexpected return type " +:+ ty +:+ " when listing pods"))
      | ListPodList _ | ListInternalList _ => firstFailure cl (S i) rest
      end
  end.


(** Every tailer was constructed right after its timestamp was resolved,
    and that right after [OnEnter] had accepted the same pod and
    container. *)
Fixpoint startsGated (tr : Trace) : Prop :=
  match tr with
  | [] => True
  | CallNewContainerTailer _ t :: older =>
      (∃ initialAdd rest,
         older = CallGetStartTimestamp (ContainerTailer.pod t)
                   (ContainerTailer.container t) initialAdd
                 :: CallOnEnter (ContainerTailer.pod t)
                      (ContainerTailer.container t) initialAdd true
                 :: rest)
      ∧ startsGated older
  | _ :: older => startsGated older
  end.

(** [OnEnter] never vetoes. *)
Definition alwaysAccepts (ctl : Controller) : Prop :=
  ∀ tr pod container initialAdd,
    OnEnter (callbacks ctl) tr pod container initialAdd = true.

(** ** Further sample objects *)

Module SampleMore.

(** A pod the kubelet has not reported on yet. *)
Definition unreported : Pod.t :=
  Pod.mk "ns1" "new"
    (PodSpec.mk [Sample.initA] [Sample.c1])
    (PodStatus.mk PodPending [] []).

(** [Sample.p1] once it has completed. *)
Definition p1Succeeded : Pod.t :=
  Pod.mk "ns1" "p1"
    (PodSpec.mk [Sample.initA] [Sample.c1; Sample.c2])
    (PodStatus.mk "Succeeded"
       [Sample.runningSince "init-a" Sample.t0]
       [Sample.runningSince "c1" Sample.t2;
        Sample.runningSince "c1" Sample.t1; Sample.waiting "c2"]).

(** A listing of an unexpected type for the second namespace. *)
Definition servesThenOdd (pods : list Pod.t) : KubeClient :=
  {| ListPods := fun i _ =>
       match i with
       | O => ListPodList pods
       | S _ => ListOtherType "*v1.Status"
       end |}.

Definition odd : Controller :=
  Sample.fresh ["ns1"; "ns2"] (servesThenOdd [Sample.p1]) Sample.accept.

Definition twoNamespaces : Controller :=
  Sample.fresh ["ns1"; "ns2"] (Sample.serves [Sample.p1]) Sample.accept.

Definition empty : Controller :=
  Sample.fresh ["ns1"] (Sample.serves [Sample.p1]) Sample.accept.

End SampleMore.
(* ===================================================================== *)
(** * Status entries *)
(* ===================================================================== *)

Lemma allContainerStatusesForPod_eq pod :
  allContainerStatusesForPod pod =
    repeat ContainerStatus.zero
      (length (PodStatus.ContainerStatuses (Pod.Status pod))
       + length (PodStatus.InitContainerStatuses (Pod.Status pod)))
    ++ (PodStatus.InitContainerStatuses (Pod.Status pod)
        ++ PodStatus.ContainerStatuses (Pod.Status pod)).
Proof. unfold allContainerStatusesForPod. by rewrite <- app_assoc. Qed.

Lemma allContainerStatusesForPod_length pod :
  length (allContainerStatusesForPod pod) =
    2 * (length (PodStatus.InitContainerStatuses (Pod.Status pod))
         + length (PodStatus.ContainerStatuses (Pod.Status pod))).
Proof.
  rewrite allContainerStatusesForPod_eq, !length_app, repeat_length. lia.
Qed.

(** C4: the list the controller iterates over is not the pod's init
    statuses followed by its regular ones: as many zero-valued entries as
    the pod has statuses come first.  On a pod with one regular status and
    no init status it has two entries, a zero-valued one and then the
    pod's own. *)
Theorem allContainerStatusesForPod_zero_padded :
  (∀ pod,
     allContainerStatusesForPod pod =
       repeat ContainerStatus.zero
         (length (PodStatus.InitContainerStatuses (Pod.Status pod)
                  ++ PodStatus.ContainerStatuses (Pod.Status pod)))
       ++ (PodStatus.InitContainerStatuses (Pod.Status pod)
           ++ PodStatus.ContainerStatuses (Pod.Status pod)))
  ∧ allContainerStatusesForPod Sample.single =
      [ContainerStatus.zero; Sample.runningSince "c1" Sample.t1]
  ∧ allContainerStatusesForPod Sample.single ≠
      PodStatus.InitContainerStatuses (Pod.Status Sample.single)
      ++ PodStatus.ContainerStatuses (Pod.Status Sample.single).
Proof.
  split; [|split; [reflexivity | discriminate]].
  intros pod. rewrite allContainerStatusesForPod_eq, length_app.
  by rewrite Nat.add_comm.
Qed.

(** A loop that looks for an entry is blind to the zero values in front,
    as long as it rejects the zero value. *)
Lemma existsb_zero_padding (f : ContainerStatus.t -> bool) n l :
  f ContainerStatus.zero = false ->
  existsb f (repeat ContainerStatus.zero n ++ l) = existsb f l.
Proof.
  intros Hz. induction n as [|n IH]; simpl; [done|]. by rewrite Hz, IH.
Qed.

Lemma fold_left_zero_padding {A} (f : A -> ContainerStatus.t -> A) n l a :
  (forall a, f a ContainerStatus.zero = a) ->
  fold_left f (repeat ContainerStatus.zero n ++ l) a = fold_left f l a.
Proof.
  intros Hz. induction n as [|n IH]; simpl; [done|]. by rewrite Hz, IH.
Qed.

(* ===================================================================== *)
(** * Inclusion policy *)
(* ===================================================================== *)

Lemma acknowledged_zero container :
  acknowledged container ContainerStatus.zero = false.
Proof. unfold acknowledged. simpl. apply andb_false_r. Qed.

Lemma notNil_is_Some {A} (p : option A) : notNil p = true ↔ is_Some p.
Proof.
  destruct p; simpl; split; intros H; eauto; try done.
Qed.

Lemma acknowledged_spec container s :
  acknowledged container s = true ↔
    ContainerStatus.Name s = Container.Name container
    ∧ (is_Some (ContainerState.Waiting (ContainerStatus.State s))
       ∨ is_Some (ContainerState.Running (ContainerStatus.State s))
       ∨ is_Some (ContainerState.Terminated (ContainerStatus.State s))).
Proof.
  unfold acknowledged.
  rewrite andb_true_iff, !orb_true_iff, String.eqb_eq, !notNil_is_Some.
  tauto.
Qed.


Lemma status_loop_spec pod container :
  existsb (acknowledged container) (allContainerStatusesForPod pod) = true
  ↔ hasStatus pod container.
Proof.
  rewrite allContainerStatusesForPod_eq,
    existsb_zero_padding by apply acknowledged_zero.
  rewrite existsb_exists. unfold hasStatus.
  split; intros (s & Hin & Hs); exists s.
  - apply acknowledged_spec in Hs. by rewrite list_elem_of_In.
  - destruct Hs as [Hn Hst]. rewrite <- list_elem_of_In.
    split; [done|]. by apply acknowledged_spec.
Qed.

(** The rule chain as one boolean. *)
Lemma shouldIncludeContainer_chain ctl pod container :
  shouldIncludeContainer ctl pod container =
    (String.eqb (PodStatus.Phase (Pod.Status pod)) PodRunning
     || String.eqb (PodStatus.Phase (Pod.Status pod)) PodPending)
    && existsb (acknowledged container) (allContainerStatusesForPod pod)
    && (String.eqb (ContainerName (options ctl)) ""
        || String.eqb (ContainerName (options ctl)) (Container.Name container))
    && negb (Match (ExclusionMatcher (options ctl)) (OfPod pod))
    && (Match (InclusionMatcher (options ctl)) (OfPod pod)
        || Match (InclusionMatcher (options ctl)) (OfContainer container))
    && negb (Match (ExclusionMatcher (options ctl)) (OfContainer container)).
Proof.
  unfold shouldIncludeContainer.
  destruct (String.eqb (PodStatus.Phase (Pod.Status pod)) PodRunning),
    (String.eqb (PodStatus.Phase (Pod.Status pod)) PodPending),
    (existsb (acknowledged container) (allContainerStatusesForPod pod)),
    (String.eqb (ContainerName (options ctl)) ""),
    (String.eqb (ContainerName (options ctl)) (Container.Name container)),
    (Match (ExclusionMatcher (options ctl)) (OfPod pod)),
    (Match (InclusionMatcher (options ctl)) (OfPod pod)),
    (Match (InclusionMatcher (options ctl)) (OfContainer container)),
    (Match (ExclusionMatcher (options ctl)) (OfContainer container));
    reflexivity.
Qed.

(** C1: a container is included exactly when the pod is Pending or
    Running, the pod reports a state for the container, the container-name
    filter is empty or names the container, the exclusion matcher matches
    neither the pod nor the container, and the inclusion matcher matches
    the pod or the container. *)
Theorem shouldIncludeContainer_iff ctl pod container :
  shouldIncludeContainer ctl pod container = true ↔
    (PodStatus.Phase (Pod.Status pod) = PodPending
     ∨ PodStatus.Phase (Pod.Status pod) = PodRunning)
    ∧ hasStatus pod container
    ∧ (ContainerName (options ctl) = ""
       ∨ ContainerName (options ctl) = Container.Name container)
    ∧ Match (ExclusionMatcher (options ctl)) (OfPod pod) = false
    ∧ (Match (InclusionMatcher (options ctl)) (OfPod pod) = true
       ∨ Match (InclusionMatcher (options ctl)) (OfContainer container) = true)
    ∧ Match (ExclusionMatcher (options ctl)) (OfContainer container) = false.
Proof.
  rewrite shouldIncludeContainer_chain.
  rewrite !andb_true_iff, !orb_true_iff, !negb_true_iff, !String.eqb_eq.
  rewrite status_loop_spec. tauto.
Qed.

(** Phase gating and exclusion, read off the rule chain. *)
Lemma shouldIncludeContainer_phase_gate ctl pod container :
  PodStatus.Phase (Pod.Status pod) ≠ PodPending ->
  PodStatus.Phase (Pod.Status pod) ≠ PodRunning ->
  shouldIncludeContainer ctl pod container = false.
Proof.
  intros H1 H2. rewrite shouldIncludeContainer_chain.
  apply String.eqb_neq in H1, H2. by rewrite H1, H2.
Qed.

Lemma shouldIncludeContainer_excluded ctl pod container :
  Match (ExclusionMatcher (options ctl)) (OfPod pod) = true
  ∨ Match (ExclusionMatcher (options ctl)) (OfContainer container) = true ->
  shouldIncludeContainer ctl pod container = false.
Proof.
  intros [H|H]; rewrite shouldIncludeContainer_chain, H; simpl;
    rewrite ?andb_false_r; reflexivity.
Qed.

(* ===================================================================== *)
(** * Start-timestamp resolution *)
(* ===================================================================== *)

Lemma Before_spec t u :
  time.Before t u = true ↔
    (time.sec t < time.sec u
     ∨ (time.sec t = time.sec u ∧ time.nsec t < time.nsec u))%Z.
Proof.
  unfold time.Before.
  rewrite orb_true_iff, andb_true_iff, !Z.ltb_lt, Z.eqb_eq. tauto.
Qed.

Lemma Before_false t u :
  time.Before t u = false ↔
    (time.sec u < time.sec t
     ∨ (time.sec u = time.sec t ∧ time.nsec u <= time.nsec t))%Z.
Proof.
  rewrite <- not_true_iff_false, Before_spec. lia.
Qed.

(** Adding a duration moves the instant by that many nanoseconds. *)
Lemma UnixNano_Add t d :
  time.UnixNano (time.Add t d) = (time.UnixNano t + d)%Z.
Proof.
  unfold time.Add, time.UnixNano.
  pose proof (Z.quot_rem' d 1000000000) as Hd.
  repeat case_match; simpl; lia.
Qed.



Lemma earliestRunning_zero container t :
  earliestRunning container t ContainerStatus.zero = t.
Proof. unfold earliestRunning. simpl. by case_match. Qed.

Section EarliestLoop.

Variable container : Container.t.

(** The loop with a start time already in hand: it ends with the
    earliest of that time and the list's. *)
Lemma earliest_loop_some l a :
  ∃ t, fold_left (earliestRunning container) l (Some a) = Some t
     ∧ earliestOf t (a :: runningStartsIn container l).
Proof.
  unfold runningStartsIn.
  revert a. induction l as [|s l IH]; intros a; simpl.
  - exists a. split; [done|]. split; [left|].
    intros u Hu. apply list_elem_of_singleton in Hu as ->.
    apply Before_false. lia.
  - unfold earliestRunning at 2.
    destruct (String.eqb (ContainerStatus.Name s) (Container.Name container));
      [destruct (ContainerState.Running (ContainerStatus.State s)) as [r|]|];
      simpl; try apply IH.
    set (st := ContainerStateRunning.StartedAt r).
    destruct (time.Before st a) eqn:Hb.
    + destruct (IH st) as (t & Ht & Hin & Hmin). exists t.
      split; [done|]. split.
      * right. done.
      * intros u Hu. apply elem_of_cons in Hu as [->|Hu]; [|by apply Hmin].
        specialize (Hmin st (list_elem_of_here _ _)).
        apply Before_spec in Hb. apply Before_false in Hmin.
        apply Before_false. lia.
    + destruct (IH a) as (t & Ht & Hin & Hmin). exists t.
      split; [done|]. split.
      * apply elem_of_cons in Hin as [->|Hin]; [left|].
        right. by right.
      * intros u Hu. apply elem_of_cons in Hu as [->|Hu];
          [by apply Hmin; left|].
        apply elem_of_cons in Hu as [->|Hu]; [|by apply Hmin; right].
        specialize (Hmin a (list_elem_of_here _ _)).
        apply Before_false in Hb. apply Before_false in Hmin.
        apply Before_false. lia.
Qed.

(** The loop from [nil]. *)
Lemma earliest_loop_none l :
  match runningStartsIn container l with
  | [] => fold_left (earliestRunning container) l None = None
  | ts => ∃ t, fold_left (earliestRunning container) l None = Some t
               ∧ earliestOf t ts
  end.
Proof.
  pose proof earliest_loop_some as Hsome. unfold runningStartsIn in *.
  induction l as [|s l IH]; simpl; [done|].
  unfold earliestRunning at 2 4.
  destruct (String.eqb (ContainerStatus.Name s) (Container.Name container));
    [destruct (ContainerState.Running (ContainerStatus.State s)) as [r|]|];
    simpl; try apply IH.
  apply Hsome.
Qed.

End EarliestLoop.

Lemma getStartTimestamp_default_loop pod container :
  match runningStarts pod container with
  | [] => fold_left (earliestRunning container)
            (allContainerStatusesForPod pod) None = None
  | ts => ∃ t, fold_left (earliestRunning container)
                 (allContainerStatusesForPod pod) None = Some t
               ∧ earliestOf t ts
  end.
Proof.
  rewrite allContainerStatusesForPod_eq,
    fold_left_zero_padding by apply earliestRunning_zero.
  apply earliest_loop_none.
Qed.

(** Whether resolution succeeds does not depend on the trace. *)
Lemma getStartTimestamp_ok_emit e ctl pod container initialAdd :
  snd (getStartTimestamp (emit e ctl) pod container initialAdd) =
  snd (getStartTimestamp ctl pod container initialAdd).
Proof.
  unfold getStartTimestamp. simpl.
  repeat case_match; simpl in *; congruence.
Qed.

(** C2: [getStartTimestamp] follows the priority policy: nothing under
    [SinceStart]; else [Since] itself; else, on an initial add, the current
    time moved back by exactly five seconds; else the earliest start time
    the pod reports for the container in its running status entries, and a
    failure when it reports none, in which case [addContainer] starts no
    session. *)
Theorem getStartTimestamp_policy ctl pod container initialAdd :
  (SinceStart (options ctl) = true ->
     getStartTimestamp ctl pod container initialAdd = (None, true))
  ∧ (SinceStart (options ctl) = false ->
     ∀ since, Since (options ctl) = Some since ->
     getStartTimestamp ctl pod container initialAdd = (Some since, true))
  ∧ (SinceStart (options ctl) = false -> Since (options ctl) = None ->
     initialAdd = true ->
     ∃ t, getStartTimestamp ctl pod container initialAdd = (Some t, true)
        ∧ time.UnixNano t
          = (time.UnixNano (Now ctl (trace ctl)) - 5 * time.Second)%Z)
  ∧ (SinceStart (options ctl) = false -> Since (options ctl) = None ->
     initialAdd = false ->
     match runningStarts pod container with
     | [] => getStartTimestamp ctl pod container initialAdd = (None, false)
     | ts => ∃ t, getStartTimestamp ctl pod container initialAdd
                  = (Some t, true)
                ∧ earliestOf t ts
     end)
  ∧ (snd (getStartTimestamp ctl pod container initialAdd) = false ->
     tailers (addContainer ctl pod container initialAdd) = tailers ctl
     ∧ calls isNewTailer (trace (addContainer ctl pod container initialAdd))
       = calls isNewTailer (trace ctl)).
Proof.
  split; [|split; [|split; [|split]]].
  - intros Hs. unfold getStartTimestamp. by rewrite Hs.
  - intros Hs since Hsince. unfold getStartTimestamp. by rewrite Hs, Hsince.
  - intros Hs Hsince ->. unfold getStartTimestamp. rewrite Hs, Hsince.
    eexists. split; [reflexivity|]. rewrite UnixNano_Add.
    unfold time.Second. lia.
  - intros Hs Hsince ->. unfold getStartTimestamp. rewrite Hs, Hsince.
    pose proof (getStartTimestamp_default_loop pod container) as H.
    unfold runningStarts in *.
    destruct (runningStartsIn container _) as [|u ts].
    + by rewrite H.
    + destruct H as (t & -> & Ht). by exists t.
  - intros Hf. unfold addContainer.
    destruct (tailers ctl !! buildKey pod container); [done|].
    destruct (OnEnter (callbacks ctl) (trace ctl) pod container initialAdd);
      simpl; [|done].
    rewrite <- (getStartTimestamp_ok_emit
      (CallOnEnter pod container initialAdd true) ctl) in Hf.
    rewrite <- (getStartTimestamp_ok_emit
      (CallGetStartTimestamp pod container initialAdd)
      (emit (CallOnEnter pod container initialAdd true) ctl)) in Hf.
    destruct (getStartTimestamp _ pod container initialAdd) as [ts ok].
    simpl in Hf. by subst ok.
Qed.

(* ===================================================================== *)
(** * Session lifecycle: [addContainer] and [deleteContainer] *)
(* ===================================================================== *)

Lemma addContainer_present ctl pod container initialAdd :
  is_Some (tailers ctl !! buildKey pod container) ->
  addContainer ctl pod container initialAdd = ctl.
Proof. intros [t Ht]. unfold addContainer. by rewrite Ht. Qed.

(** The four ways through [addContainer]. *)
Lemma addContainer_cases ctl pod container initialAdd :
  let key := buildKey pod container in
  (is_Some (tailers ctl !! key)
   ∧ addContainer ctl pod container initialAdd = ctl)
  ∨ (tailers ctl !! key = None
     ∧ tailers (addContainer ctl pod container initialAdd) = tailers ctl
     ∧ trace (addContainer ctl pod container initialAdd)
       = CallOnEnter pod container initialAdd false :: trace ctl)
  ∨ (tailers ctl !! key = None
     ∧ tailers (addContainer ctl pod container initialAdd) = tailers ctl
     ∧ trace (addContainer ctl pod container initialAdd)
       = CallGetStartTimestamp pod container initialAdd
         :: CallOnEnter pod container initialAdd true :: trace ctl)
  ∨ (tailers ctl !! key = None
     ∧ ∃ ts, tailers (addContainer ctl pod container initialAdd)
             = <[key := NewContainerTailer pod container ts]> (tailers ctl)
           ∧ trace (addContainer ctl pod container initialAdd)
             = GoTailerRun key
               :: CallNewContainerTailer key
                    (NewContainerTailer pod container ts)
               :: CallGetStartTimestamp pod container initialAdd
               :: CallOnEnter pod container initialAdd true :: trace ctl).
Proof.
  intros key. unfold addContainer. fold key.
  destruct (tailers ctl !! key) as [t|] eqn:Hk; [left; eauto|].
  right.
  destruct (OnEnter (callbacks ctl) (trace ctl) pod container initialAdd);
    simpl; [|by left].
  right. destruct (getStartTimestamp _ pod container initialAdd) as [ts [|]];
    simpl; [right; eauto | by left].
Qed.

Lemma addContainer_static ctl pod container initialAdd :
  options (addContainer ctl pod container initialAdd) = options ctl
  ∧ client (addContainer ctl pod container initialAdd) = client ctl
  ∧ callbacks (addContainer ctl pod container initialAdd) = callbacks ctl
  ∧ Now (addContainer ctl pod container initialAdd) = Now ctl.
Proof. unfold addContainer. by repeat case_match. Qed.

Lemma deleteContainer_static ctl pod container :
  options (deleteContainer ctl pod container) = options ctl
  ∧ client (deleteContainer ctl pod container) = client ctl
  ∧ callbacks (deleteContainer ctl pod container) = callbacks ctl
  ∧ Now (deleteContainer ctl pod container) = Now ctl.
Proof. unfold deleteContainer. by repeat case_match. Qed.

Lemma addContainer_grows ctl pod container initialAdd :
  grows (concerns pod container) ctl
    (addContainer ctl pod container initialAdd).
Proof.
  destruct (addContainer_static ctl pod container initialAdd)
    as (? & ? & ? & ?).
  repeat (split; [done|]).
  destruct (addContainer_cases ctl pod container initialAdd)
    as [[_ ->]|[(_ & _ & ->)|[(_ & _ & ->)|(_ & ts & _ & ->)]]].
  - by exists [].
  - exists [CallOnEnter pod container initialAdd false].
    split; [done|]. by repeat constructor.
  - exists [CallGetStartTimestamp pod container initialAdd;
            CallOnEnter pod container initialAdd true].
    split; [done|]. by repeat constructor.
  - eexists [_; _; _; _]. split; [reflexivity|]. by repeat constructor.
Qed.

Lemma deleteContainer_cases ctl pod container :
  let key := buildKey pod container in
  (tailers ctl !! key = None ∧ deleteContainer ctl pod container = ctl)
  ∨ (∃ tailer, tailers ctl !! key = Some tailer
       ∧ tailers (deleteContainer ctl pod container)
         = delete key (tailers ctl)
       ∧ trace (deleteContainer ctl pod container)
         = CallOnExit pod container :: CallTailerStop key tailer
           :: trace ctl).
Proof.
  intros key. unfold deleteContainer. fold key.
  destruct (tailers ctl !! key) as [t|]; [right; eauto | by left].
Qed.

Lemma deleteContainer_grows ctl pod container :
  grows (concerns pod container) ctl (deleteContainer ctl pod container).
Proof.
  destruct (deleteContainer_static ctl pod container) as (? & ? & ? & ?).
  repeat (split; [done|]).
  destruct (deleteContainer_cases ctl pod container)
    as [[_ ->]|(t & _ & _ & ->)].
  - by exists [].
  - eexists [_; _]. split; [reflexivity|]. by repeat constructor.
Qed.

(** An entry already in the registry survives [addContainer] as it is. *)
Lemma addContainer_keeps ctl pod container initialAdd key tailer :
  tailers ctl !! key = Some tailer ->
  tailers (addContainer ctl pod container initialAdd) !! key = Some tailer.
Proof.
  intros Hk.
  destruct (addContainer_cases ctl pod container initialAdd)
    as [[_ ->]|[(_ & -> & _)|[(_ & -> & _)|(Hn & ts & -> & _)]]]; try done.
  rewrite lookup_insert_ne; [done|]. intros <-. congruence.
Qed.

Lemma addContainer_consistent ctl pod container initialAdd :
  consistent ctl -> consistent (addContainer ctl pod container initialAdd).
Proof.
  intros [Hlive Hgate].
  destruct (addContainer_cases ctl pod container initialAdd)
    as [[_ ->]|[(Hn & Ht & Htr)|[(Hn & Ht & Htr)|(Hn & ts & Ht & Htr)]]];
    [done| | |]; split; rewrite ?Htr, ?Ht; simpl;
    try done; try (split; [|done]; by rewrite Hlive, Hn).
  - intros key. destruct (String.eqb_spec (buildKey pod container) key) as [<-|Hne].
    + by rewrite lookup_insert_eq, Hlive, Hn.
    + by rewrite lookup_insert_ne.
Qed.

Lemma deleteContainer_consistent ctl pod container :
  consistent ctl -> consistent (deleteContainer ctl pod container).
Proof.
  intros [Hlive Hgate].
  destruct (deleteContainer_cases ctl pod container)
    as [[_ ->]|(t & Hk & Ht & Htr)]; [done|].
  split; rewrite ?Htr, ?Ht; simpl; [|done].
  intros key. destruct (String.eqb_spec (buildKey pod container) key) as [<-|Hne].
  - by rewrite lookup_delete_eq, Hlive, Hk.
  - by rewrite lookup_delete_ne.
Qed.

(* ===================================================================== *)
(** * Loops over containers and status entries *)
(* ===================================================================== *)

(** A relation that every iteration respects holds across the loop. *)
Lemma fold_left_rel {S B} (R : S -> S -> Prop) (f : S -> B -> S) l s :
  (∀ s, R s s) -> (∀ s1 s2 s3, R s1 s2 -> R s2 s3 -> R s1 s3) ->
  (∀ s b, b ∈ l -> R s (f s b)) ->
  R s (fold_left f l s).
Proof.
  intros Hrefl Htrans. revert s.
  induction l as [|b l IH]; intros s Hstep; simpl; [done|].
  eapply Htrans; [apply Hstep; left|].
  apply IH. intros s' b' Hb'. apply Hstep. by right.
Qed.

Lemma grows_refl P ctl : grows P ctl ctl.
Proof. repeat (split; [done|]). by exists []. Qed.

Lemma grows_trans P ctl1 ctl2 ctl3 :
  grows P ctl1 ctl2 -> grows P ctl2 ctl3 -> grows P ctl1 ctl3.
Proof.
  intros (Ho & Hc & Hb & Hn & new1 & Ht1 & Hf1)
         (Ho' & Hc' & Hb' & Hn' & new2 & Ht2 & Hf2).
  repeat split; try congruence.
  exists (new2 ++ new1). split.
  - by rewrite Ht2, Ht1, app_assoc.
  - by apply Forall_app.
Qed.

Lemma grows_weaken (P Q : Event -> Prop) ctl ctl' :
  (∀ e, P e -> Q e) -> grows P ctl ctl' -> grows Q ctl ctl'.
Proof.
  intros HPQ (Ho & Hc & Hb & Hn & new & Ht & Hf).
  repeat (split; [done|]). exists new. split; [done|].
  eapply Forall_impl; eauto.
Qed.

Lemma grows_emit (P : Event -> Prop) e ctl : P e -> grows P ctl (emit e ctl).
Proof.
  intros He. repeat (split; [done|]). exists [e]. split; [done|].
  by constructor.
Qed.

Lemma fold_left_grows {B} (P : Event -> Prop)
    (f : Controller -> B -> Controller) l ctl :
  (∀ ctl b, b ∈ l -> grows P ctl (f ctl b)) ->
  grows P ctl (fold_left f l ctl).
Proof.
  apply (fold_left_rel (grows P)); [apply grows_refl | apply grows_trans].
Qed.

Lemma findContainer_Some containers name c :
  findContainer containers name = Some c ->
  c ∈ containers ∧ Container.Name c = name.
Proof.
  unfold findContainer. intros H. apply find_some in H as [Hin Hn].
  split; [by apply list_elem_of_In | by apply String.eqb_eq].
Qed.

Lemma findContainer_None containers name :
  findContainer containers name = None ↔
  ∀ c, c ∈ containers -> Container.Name c ≠ name.
Proof.
  unfold findContainer. split.
  - intros H c Hc Hn. apply list_elem_of_In in Hc.
    eapply find_none in H; [|exact Hc]. simpl in H.
    apply String.eqb_neq in H. done.
  - intros H. destruct (find _ containers) as [c|] eqn:Hf; [|done].
    apply find_some in Hf as [Hin Hn]. apply String.eqb_eq in Hn.
    apply list_elem_of_In in Hin. by destruct (H c Hin).
Qed.

(** ** What the handlers call *)

Lemma initialAddStep_grows pod s container :
  grows (concerns pod container) (fst s) (fst (initialAddStep pod s container)).
Proof.
  unfold initialAddStep. case_match; simpl;
    [apply addContainer_grows | apply grows_refl].
Qed.

Lemma addStep_grows pod ctl container :
  grows (concerns pod container) ctl (addStep pod ctl container).
Proof.
  unfold addStep. case_match; [apply addContainer_grows | apply grows_refl].
Qed.

Lemma initialAdd_loop_grows pod cs l s :
  (∀ c, c ∈ l -> c ∈ cs) ->
  grows (concernsAny pod cs) (fst s) (fst (fold_left (initialAddStep pod) l s)).
Proof.
  intros Hl.
  apply (fold_left_rel (fun s s' => grows (concernsAny pod cs) (fst s) (fst s')));
    [intros; apply grows_refl | intros; by eapply grows_trans |].
  intros s' c Hc. eapply grows_weaken; [|apply initialAddStep_grows].
  intros e He. exists c. split; [by apply Hl | done].
Qed.

Lemma onInitialAdd_grows ctl pod :
  grows (concernsAny pod (PodSpec.InitContainers (Pod.Spec pod)
                          ++ PodSpec.Containers (Pod.Spec pod)))
    ctl (fst (onInitialAdd ctl pod)).
Proof.
  unfold onInitialAdd.
  set (cs := PodSpec.InitContainers (Pod.Spec pod)
             ++ PodSpec.Containers (Pod.Spec pod)).
  apply grows_trans with
    (fst (fold_left (initialAddStep pod)
            (PodSpec.InitContainers (Pod.Spec pod)) (ctl, false))).
  - apply (initialAdd_loop_grows pod cs _ (ctl, false)).
    intros c Hc. apply elem_of_app. by left.
  - apply initialAdd_loop_grows. intros c Hc. apply elem_of_app. by right.
Qed.

Lemma onAdd_grows ctl pod :
  grows (concernsAny pod (PodSpec.InitContainers (Pod.Spec pod)
                          ++ PodSpec.Containers (Pod.Spec pod)))
    ctl (onAdd ctl pod).
Proof.
  unfold onAdd.
  apply grows_trans with
    (fold_left (addStep pod) (PodSpec.InitContainers (Pod.Spec pod)) ctl);
    apply fold_left_grows; intros c' c Hc;
    (eapply grows_weaken; [|apply addStep_grows]);
    intros e He; exists c; (split; [|done]); apply elem_of_app; auto.
Qed.

Lemma updateStep_grows pod ctl s :
  grows (concernsAny pod (PodSpec.Containers (Pod.Spec pod)))
    ctl (updateStep pod ctl s).
Proof.
  unfold updateStep.
  destruct (findContainer _ _) as [c|] eqn:Hf; [|apply grows_refl].
  apply findContainer_Some in Hf as [Hin _].
  eapply grows_weaken with (P := concerns pod c); [intros e He; by exists c|].
  case_match; [apply addContainer_grows | apply deleteContainer_grows].
Qed.

Lemma onUpdate_grows ctl pod :
  grows (concernsAny pod (PodSpec.Containers (Pod.Spec pod)))
    ctl (onUpdate ctl pod).
Proof.
  unfold onUpdate. apply fold_left_grows. intros. apply updateStep_grows.
Qed.

Lemma onDelete_grows ctl pod :
  grows (concernsAny pod (PodSpec.Containers (Pod.Spec pod)))
    ctl (onDelete ctl pod).
Proof.
  unfold onDelete. apply fold_left_grows. intros ctl' c Hc.
  eapply grows_weaken; [|apply deleteContainer_grows].
  intros e He. by exists c.
Qed.

(** ** The handlers keep the registry and the trace in step *)

Lemma fold_left_consistent {B} (f : Controller -> B -> Controller) l ctl :
  (∀ ctl b, consistent ctl -> consistent (f ctl b)) ->
  consistent ctl -> consistent (fold_left f l ctl).
Proof.
  intros Hf.
  apply (fold_left_rel (fun c c' => consistent c -> consistent c')); auto.
Qed.

Lemma initialAddStep_consistent pod s container :
  consistent (fst s) -> consistent (fst (initialAddStep pod s container)).
Proof.
  unfold initialAddStep. case_match; simpl; [|done].
  apply addContainer_consistent.
Qed.

Lemma onInitialAdd_consistent ctl pod :
  consistent ctl -> consistent (fst (onInitialAdd ctl pod)).
Proof.
  unfold onInitialAdd. intros H.
  apply (fold_left_rel
           (fun s s' => consistent (fst s) -> consistent (fst s')));
    auto using initialAddStep_consistent.
  revert H.
  apply (fold_left_rel
           (fun s s' => consistent (fst s) -> consistent (fst s'))
           (initialAddStep pod) _ (ctl, false));
    auto using initialAddStep_consistent.
Qed.

Lemma addStep_consistent pod ctl container :
  consistent ctl -> consistent (addStep pod ctl container).
Proof.
  unfold addStep. case_match; [|done]. apply addContainer_consistent.
Qed.

Lemma onAdd_consistent ctl pod :
  consistent ctl -> consistent (onAdd ctl pod).
Proof.
  unfold onAdd. intros H.
  do 2 (apply fold_left_consistent; [apply addStep_consistent|]). done.
Qed.

Lemma updateStep_consistent pod ctl s :
  consistent ctl -> consistent (updateStep pod ctl s).
Proof.
  unfold updateStep. repeat case_match; try done;
    [apply addContainer_consistent | apply deleteContainer_consistent].
Qed.

Lemma onUpdate_consistent ctl pod :
  consistent ctl -> consistent (onUpdate ctl pod).
Proof.
  unfold onUpdate. apply fold_left_consistent. apply updateStep_consistent.
Qed.

Lemma onDelete_consistent ctl pod :
  consistent ctl -> consistent (onDelete ctl pod).
Proof.
  unfold onDelete. apply fold_left_consistent.
  intros; by apply deleteContainer_consistent.
Qed.

Lemma NewController_consistent cl opts cb now :
  consistent (NewController cl opts cb now).
Proof. split; simpl; [|done]. intros key. by rewrite lookup_empty. Qed.

Lemma perform_consistent ctl a :
  consistent ctl -> consistent (perform ctl a).
Proof.
  destruct a; simpl;
    auto using addContainer_consistent, deleteContainer_consistent,
      onInitialAdd_consistent, onAdd_consistent, onUpdate_consistent,
      onDelete_consistent.
Qed.

Lemma performAll_consistent ctl actions :
  consistent ctl -> consistent (performAll ctl actions).
Proof.
  unfold performAll. apply fold_left_consistent. apply perform_consistent.
Qed.

(* ===================================================================== *)
(** * Idempotent start, veto and stop *)
(* ===================================================================== *)

(** C3: [addContainer] on a registered key returns the controller as it
    was (no [OnEnter], no timestamp, no registry change); it never
    replaces an entry; and after any sequence of calls on a new controller
    every key has at most one live tailer, one exactly when it is
    registered, and [OnEnter] was never called for a key with a live
    tailer. *)
Theorem addContainer_at_most_one_session :
  (∀ ctl pod container initialAdd,
     is_Some (tailers ctl !! buildKey pod container) ->
     addContainer ctl pod container initialAdd = ctl)
  ∧ (∀ ctl pod container initialAdd key tailer,
       tailers ctl !! key = Some tailer ->
       tailers (addContainer ctl pod container initialAdd) !! key
       = Some tailer)
  ∧ (∀ cl opts cb now actions,
       let ctl := performAll (NewController cl opts cb now) actions in
       (∀ key, (live key (trace ctl) ≤ 1)%nat
               ∧ (live key (trace ctl) = 1 ↔ is_Some (tailers ctl !! key)))
       ∧ enterGated (trace ctl)).
Proof.
  split; [apply addContainer_present|].
  split; [apply addContainer_keeps|].
  intros cl opts cb now actions ctl.
  destruct (performAll_consistent (NewController cl opts cb now) actions
              (NewController_consistent cl opts cb now)) as [Hlive Hgate].
  fold ctl in Hlive, Hgate. split; [|done].
  intros key. rewrite Hlive. destruct (tailers ctl !! key); split.
  - lia.
  - split; eauto.
  - lia.
  - split; [done|]. by intros [? ?].
Qed.

(** C7: when the key is not registered and [OnEnter] returns false,
    [addContainer] does nothing but that one [OnEnter] call: no timestamp
    is resolved, no tailer is constructed, the registry is unchanged and
    the key still absent. *)
Theorem addContainer_veto ctl pod container initialAdd :
  tailers ctl !! buildKey pod container = None ->
  OnEnter (callbacks ctl) (trace ctl) pod container initialAdd = false ->
  addContainer ctl pod container initialAdd
  = emit (CallOnEnter pod container initialAdd false) ctl
  ∧ tailers (addContainer ctl pod container initialAdd) = tailers ctl
  ∧ tailers (addContainer ctl pod container initialAdd)
      !! buildKey pod container = None
  ∧ calls isTimestamp (trace (addContainer ctl pod container initialAdd))
    = calls isTimestamp (trace ctl)
  ∧ calls isNewTailer (trace (addContainer ctl pod container initialAdd))
    = calls isNewTailer (trace ctl).
Proof.
  intros Hk Hveto. unfold addContainer. rewrite Hk, Hveto. simpl.
  by rewrite Hk.
Qed.

(** C8: [deleteContainer] on a key that is not registered returns the
    controller as it was (no [Stop], no [OnExit]); on a registered key it
    removes that entry and no other, stops the tailer that was registered
    and calls [OnExit] once. *)
Theorem deleteContainer_absent_or_present ctl pod container :
  (tailers ctl !! buildKey pod container = None ->
   deleteContainer ctl pod container = ctl)
  ∧ (∀ tailer,
       tailers ctl !! buildKey pod container = Some tailer ->
       tailers (deleteContainer ctl pod container)
         !! buildKey pod container = None
       ∧ (∀ key, key ≠ buildKey pod container ->
            tailers (deleteContainer ctl pod container) !! key
            = tailers ctl !! key)
       ∧ trace (deleteContainer ctl pod container)
         = CallOnExit pod container
           :: CallTailerStop (buildKey pod container) tailer :: trace ctl).
Proof.
  split.
  - intros Hk. unfold deleteContainer. by rewrite Hk.
  - intros tailer Hk. unfold deleteContainer. rewrite Hk. simpl.
    split; [apply lookup_delete_eq|]. split; [|done].
    intros key Hne. by apply lookup_delete_ne.
Qed.

(* ===================================================================== *)
(** * [onAdd] and the initial-add pass *)
(* ===================================================================== *)

(** The inclusion policy reads the controller's options and nothing else
    of it. *)
Lemma shouldIncludeContainer_options ctl ctl' pod container :
  options ctl' = options ctl ->
  shouldIncludeContainer ctl' pod container
  = shouldIncludeContainer ctl pod container.
Proof. intros H. unfold shouldIncludeContainer. by rewrite H. Qed.

Lemma addAll_options initialAdd pod ctl cs :
  options (addAll initialAdd pod ctl cs) = options ctl.
Proof.
  unfold addAll. revert ctl. induction cs as [|c cs IH]; intros ctl; simpl;
    [done|].
  rewrite IH. apply addContainer_static.
Qed.

Lemma add_loop_filter ctl pod l ctl' :
  options ctl' = options ctl ->
  fold_left (addStep pod) l ctl'
  = addAll false pod ctl' (List.filter (shouldIncludeContainer ctl pod) l).
Proof.
  revert ctl'. induction l as [|c l IH]; intros ctl' Ho; simpl; [done|].
  unfold addStep at 2. rewrite (shouldIncludeContainer_options ctl ctl') by done.
  destruct (shouldIncludeContainer ctl pod c); simpl.
  - apply IH. rewrite <- Ho. apply addContainer_static.
  - by apply IH.
Qed.

Lemma initialAdd_loop_filter ctl pod l ctl' added :
  options ctl' = options ctl ->
  fold_left (initialAddStep pod) l (ctl', added)
  = (addAll true pod ctl' (List.filter (shouldIncludeContainer ctl pod) l),
     match List.filter (shouldIncludeContainer ctl pod) l with
     | [] => added
     | _ => true
     end).
Proof.
  revert ctl' added. induction l as [|c l IH]; intros ctl' added Ho; simpl;
    [done|].
  unfold initialAddStep at 2. simpl.
  rewrite (shouldIncludeContainer_options ctl ctl') by done.
  destruct (shouldIncludeContainer ctl pod c); simpl.
  - rewrite IH; [by case_match|]. rewrite <- Ho. apply addContainer_static.
  - by apply IH.
Qed.

Lemma addAll_app initialAdd pod ctl cs1 cs2 :
  addAll initialAdd pod ctl (cs1 ++ cs2)
  = addAll initialAdd pod (addAll initialAdd pod ctl cs1) cs2.
Proof. unfold addAll. apply fold_left_app. Qed.

Lemma onAdd_included ctl pod :
  onAdd ctl pod = addAll false pod ctl (included ctl pod).
Proof.
  unfold included. rewrite List.filter_app, !addAll_app. unfold onAdd.
  rewrite (add_loop_filter ctl pod (PodSpec.InitContainers _) ctl) by done.
  apply add_loop_filter. apply addAll_options.
Qed.

Lemma onInitialAdd_included ctl pod :
  onInitialAdd ctl pod
  = (addAll true pod ctl (included ctl pod), discovered ctl pod).
Proof.
  unfold discovered, included. rewrite List.filter_app, !addAll_app.
  unfold onInitialAdd.
  rewrite (initialAdd_loop_filter ctl pod (PodSpec.InitContainers _)
             ctl false) by done.
  rewrite (initialAdd_loop_filter ctl) by apply addAll_options.
  f_equal.
  destruct (List.filter _ (PodSpec.InitContainers _)); simpl; [done|].
  by case_match.
Qed.

(** C10: on every pod [onAdd] and [onInitialAdd] hand the same containers
    to [addContainer] in the same order (the init containers and then the
    regular ones that pass the inclusion policy); [onAdd] passes
    [initialAdd = false], [onInitialAdd] passes [true] and also reports
    whether there was any such container. *)
Theorem onAdd_as_onInitialAdd ctl pod :
  onAdd ctl pod = addAll false pod ctl (included ctl pod)
  ∧ fst (onInitialAdd ctl pod) = addAll true pod ctl (included ctl pod)
  ∧ snd (onInitialAdd ctl pod)
    = match included ctl pod with [] => false | _ => true end.
Proof.
  rewrite onAdd_included, onInitialAdd_included. by unfold discovered.
Qed.

(* ===================================================================== *)
(** * [onUpdate] and [onDelete] act on regular containers only *)
(* ===================================================================== *)

Lemma append_cancel_l (a b c : string) : a +:+ b = a +:+ c -> b = c.
Proof. induction a as [|x a IH]; simpl; [done|]. intros [= H]. auto. Qed.

(** Within one pod the key tells the container names apart. *)
Lemma buildKey_name pod c c' :
  buildKey pod c = buildKey pod c' -> Container.Name c = Container.Name c'.
Proof.
  unfold buildKey. intros H.
  by do 4 apply append_cancel_l in H.
Qed.

Lemma calls_app which (new old : Trace) :
  calls which (new ++ old) = calls which new + calls which old.
Proof. unfold calls. by rewrite List.filter_app, length_app. Qed.

Lemma calls_none which (P : Event -> Prop) (new : Trace) :
  (∀ e, P e -> which e = false) -> Forall P new -> calls which new = 0.
Proof.
  intros HP Hall. unfold calls.
  induction Hall as [|e l He _ IH]; simpl; [done|]. by rewrite (HP e He).
Qed.

(** Calls that produce none of the events [which] counts leave the count
    as it was. *)
Lemma grows_calls which (P : Event -> Prop) ctl ctl' :
  (∀ e, P e -> which e = false) -> grows P ctl ctl' ->
  calls which (trace ctl') = calls which (trace ctl).
Proof.
  intros HP (_ & _ & _ & _ & new & -> & Hall).
  by rewrite calls_app, (calls_none which P new).
Qed.

Lemma addContainer_other_key ctl pod container initialAdd key :
  buildKey pod container ≠ key ->
  tailers (addContainer ctl pod container initialAdd) !! key
  = tailers ctl !! key.
Proof.
  intros Hne.
  destruct (addContainer_cases ctl pod container initialAdd)
    as [[_ ->]|[(_ & -> & _)|[(_ & -> & _)|(_ & ts & -> & _)]]]; try done.
  by rewrite lookup_insert_ne.
Qed.

Lemma deleteContainer_other_key ctl pod container key :
  buildKey pod container ≠ key ->
  tailers (deleteContainer ctl pod container) !! key = tailers ctl !! key.
Proof.
  intros Hne.
  destruct (deleteContainer_cases ctl pod container)
    as [[_ ->]|(t & _ & -> & _)]; [done|].
  by rewrite lookup_delete_ne.
Qed.

Section OtherKey.

Variables (pod : Pod.t) (key : string).
Hypothesis not_regular :
  ∀ c, c ∈ PodSpec.Containers (Pod.Spec pod) -> buildKey pod c ≠ key.

Lemma updateStep_other_key ctl s :
  tailers (updateStep pod ctl s) !! key = tailers ctl !! key.
Proof using not_regular.
  unfold updateStep.
  destruct (findContainer _ _) as [c|] eqn:Hf; [|done].
  apply findContainer_Some in Hf as [Hin _].
  case_match;
    [apply addContainer_other_key | apply deleteContainer_other_key]; auto.
Qed.

Lemma onUpdate_other_key ctl :
  tailers (onUpdate ctl pod) !! key = tailers ctl !! key.
Proof using not_regular.
  unfold onUpdate.
  apply (fold_left_rel
           (fun c c' => tailers c' !! key = tailers c !! key));
    [done | intros; congruence |].
  intros. apply updateStep_other_key.
Qed.

Lemma onDelete_other_key ctl :
  tailers (onDelete ctl pod) !! key = tailers ctl !! key.
Proof using not_regular.
  unfold onDelete.
  apply (fold_left_rel
           (fun c c' => tailers c' !! key = tailers c !! key));
    [done | intros; congruence |].
  intros ctl' c Hc. apply deleteContainer_other_key. auto.
Qed.

Lemma regular_events_no_stop e :
  concernsAny pod (PodSpec.Containers (Pod.Spec pod)) e ->
  isStopOf key e = false.
Proof using not_regular.
  intros (c & Hc & He). destruct e; simpl in *; try done.
  apply String.eqb_neq. intros ->. by apply (not_regular c).
Qed.

End OtherKey.

(** C6: [onUpdate] and [onDelete] call [addContainer], [deleteContainer]
    and through them the callbacks and tailers only for regular containers
    of the pod; a status entry that names no regular container changes
    nothing; so the registry entry of a container of the pod whose name is
    not a regular container's, an init container's, is neither removed nor
    stopped by either handler. *)
Theorem onUpdate_onDelete_regular_only ctl pod :
  grows (concernsAny pod (PodSpec.Containers (Pod.Spec pod)))
    ctl (onUpdate ctl pod)
  ∧ grows (concernsAny pod (PodSpec.Containers (Pod.Spec pod)))
      ctl (onDelete ctl pod)
  ∧ (∀ s, (∀ c, c ∈ PodSpec.Containers (Pod.Spec pod) ->
             Container.Name c ≠ ContainerStatus.Name s) ->
          updateStep pod ctl s = ctl)
  ∧ (∀ init,
       init ∈ PodSpec.InitContainers (Pod.Spec pod) ->
       (∀ c, c ∈ PodSpec.Containers (Pod.Spec pod) ->
             Container.Name c ≠ Container.Name init) ->
       let key := buildKey pod init in
       tailers (onUpdate ctl pod) !! key = tailers ctl !! key
       ∧ calls (isStopOf key) (trace (onUpdate ctl pod))
         = calls (isStopOf key) (trace ctl)
       ∧ tailers (onDelete ctl pod) !! key = tailers ctl !! key
       ∧ calls (isStopOf key) (trace (onDelete ctl pod))
         = calls (isStopOf key) (trace ctl)).
Proof.
  split; [apply onUpdate_grows|]. split; [apply onDelete_grows|]. split.
  - intros s Hs. unfold updateStep.
    by rewrite (proj2 (findContainer_None _ _) Hs).
  - intros init _ Hinit key.
    assert (∀ c, c ∈ PodSpec.Containers (Pod.Spec pod) ->
                 buildKey pod c ≠ key) as Hkey.
    { intros c Hc Heq. apply (Hinit c Hc). by apply (buildKey_name pod). }
    split; [by apply onUpdate_other_key|].
    split; [|split; [by apply onDelete_other_key|]].
    + eapply grows_calls; [|apply onUpdate_grows].
      by apply regular_events_no_stop.
    + eapply grows_calls; [|apply onDelete_grows].
      by apply regular_events_no_stop.
Qed.

(* ===================================================================== *)
(** * The namespace loop of [Run] *)
(* ===================================================================== *)

Lemma discovered_options ctl ctl' pod :
  options ctl' = options ctl -> discovered ctl' pod = discovered ctl pod.
Proof.
  intros Ho. unfold discovered, included.
  by rewrite (filter_ext _ _
    (fun c => shouldIncludeContainer_options ctl ctl' pod c Ho)).
Qed.

Lemma existsb_discovered_options ctl ctl' pods :
  options ctl' = options ctl ->
  existsb (discovered ctl') pods = existsb (discovered ctl) pods.
Proof.
  intros Ho. induction pods as [|p pods IH]; simpl; [done|].
  by rewrite IH, (discovered_options ctl ctl').
Qed.

Lemma onInitialAdd_discovered ctl pod :
  snd (onInitialAdd ctl pod) = discovered ctl pod.
Proof. by rewrite onInitialAdd_included. Qed.

(** A pod of which no container is included goes through the initial-add
    pass without a call. *)
Lemma onInitialAdd_nothing ctl pod :
  snd (onInitialAdd ctl pod) = false -> fst (onInitialAdd ctl pod) = ctl.
Proof.
  rewrite onInitialAdd_included. unfold discovered. simpl.
  by destruct (included ctl pod).
Qed.

Lemma listedPod_grows s pod :
  grows (loopEvent []) (fst s) (fst (listedPod s pod)).
Proof.
  unfold listedPod. simpl.
  eapply grows_weaken; [|apply onInitialAdd_grows].
  intros e (c & _ & He). left. eauto.
Qed.

Lemma listedPod_loop items s :
  grows (loopEvent []) (fst s) (fst (fold_left listedPod items s))
  ∧ snd (fold_left listedPod items s)
    = snd s || existsb (discovered (fst s)) items.
Proof.
  revert s. induction items as [|pod items IH]; intros s; simpl.
  - split; [apply grows_refl | by rewrite orb_false_r].
  - destruct (IH (listedPod s pod)) as [Hg ->].
    pose proof (listedPod_grows s pod) as Hg1. split.
    + by eapply grows_trans.
    + rewrite (existsb_discovered_options (fst s)) by apply Hg1.
      unfold listedPod at 1. simpl. rewrite onInitialAdd_discovered.
      destruct (discovered (fst s) pod), (snd s); reflexivity.
Qed.

Lemma listedItem_loop items s :
  fold_left listedItem items s = fold_left listedPod (podsAmong items) s.
Proof.
  revert s. induction items as [|[pod|kind] items IH]; intros s; simpl; auto.
Qed.

(** A listing pass that discovers nothing leaves the loop state alone. *)
Lemma listedPod_loop_nothing items s :
  snd (fold_left listedPod items s) = false ->
  fold_left listedPod items s = s.
Proof.
  revert s. induction items as [|pod items IH]; intros s; simpl; [done|].
  intros H. rewrite (IH _ H). specialize (IH _ H). rewrite IH in H.
  unfold listedPod in *. simpl in H.
  destruct (snd (onInitialAdd (fst s) pod)) eqn:Hd; [done|].
  rewrite (onInitialAdd_nothing _ _ Hd). by destruct s.
Qed.

Lemma loopEvent_mono nss nss' :
  (∀ ns, ns ∈ nss -> ns ∈ nss') ->
  ∀ e, loopEvent nss e -> loopEvent nss' e.
Proof.
  intros Hsub e [H|(ns & Hns & H)]; [by left|]. right. exists ns. auto.
Qed.

(** One iteration of the namespace loop after a listing that returned
    pods. *)
Lemma listing_pass_grows ns rest items s ctl :
  fst s = emit (CallList ns) ctl ->
  grows (loopEvent (ns :: rest)) ctl
    (emit (GoInformerRun ns) (fst (fold_left listedPod items s))).
Proof.
  intros Hs.
  apply grows_trans with (emit (CallList ns) ctl).
  { apply grows_emit. right. exists ns. split; [left | by left]. }
  rewrite <- Hs.
  apply grows_trans with (fst (fold_left listedPod items s)).
  - eapply grows_weaken; [|apply listedPod_loop].
    apply loopEvent_mono. intros ? H. by apply elem_of_nil in H.
  - apply grows_emit. right. exists ns. split; [left | by right].
Qed.

Lemma runNamespaces_grows i nss d ctl :
  grows (loopEvent nss) ctl (fst (runNamespaces i nss d ctl)).
Proof.
  revert i d ctl. induction nss as [|ns rest IH]; intros i d ctl; simpl.
  - apply grows_refl.
  - assert (grows (loopEvent (ns :: rest)) ctl (emit (CallList ns) ctl)) as H0.
    { apply grows_emit. right. exists ns. split; [left | by left]. }
    destruct (ListPods (client ctl) i ns) as [err|items|items|ty]; simpl;
      try done.
    + eapply grows_trans;
        [by apply (listing_pass_grows ns rest items
                     (emit (CallList ns) ctl, d))|].
      eapply grows_weaken; [|apply IH].
      apply loopEvent_mono. intros ? ?. by right.
    + rewrite listedItem_loop.
      eapply grows_trans;
        [by apply (listing_pass_grows ns rest (podsAmong items)
                     (emit (CallList ns) ctl, d))|].
      eapply grows_weaken; [|apply IH].
      apply loopEvent_mono. intros ? ?. by right.
Qed.

(** How the loop ends, read off the responses: it runs to its end exactly
    when every response is a listing, and then [discoveredAny] tells
    whether some listed pod has an included container. *)
Lemma runNamespaces_result i nss d ctl :
  match snd (runNamespaces i nss d ctl) with
  | inl d' =>
      forallb isListing (responsesFrom (client ctl) i nss) = true
      ∧ d' = d || existsb (discovered ctl)
                    (flat_map podsOf (responsesFrom (client ctl) i nss))
  | inr _ => forallb isListing (responsesFrom (client ctl) i nss) = false
  end.
Proof.
  revert i d ctl. induction nss as [|ns rest IH]; intros i d ctl; simpl.
  - by rewrite orb_false_r.
  - assert (∀ items,
      match snd (runNamespaces (S i) rest
                   (snd (fold_left listedPod items (emit (CallList ns) ctl, d)))
                   (emit (GoInformerRun ns)
                      (fst (fold_left listedPod items
                              (emit (CallList ns) ctl, d))))) with
      | inl d' =>
          forallb isListing (responsesFrom (client ctl) (S i) rest) = true
          ∧ d' = d || existsb (discovered ctl)
                        (items ++ flat_map podsOf
                                    (responsesFrom (client ctl) (S i) rest))
      | inr _ =>
          forallb isListing (responsesFrom (client ctl) (S i) rest) = false
      end) as Hpass.
    { intros items.
      destruct (listedPod_loop items (emit (CallList ns) ctl, d)) as [_ Hd].
      destruct (listing_pass_grows ns rest items
                  (emit (CallList ns) ctl, d) ctl eq_refl) as (Ho & Hc & _).
      specialize (IH (S i)
        (snd (fold_left listedPod items (emit (CallList ns) ctl, d)))
        (emit (GoInformerRun ns)
           (fst (fold_left listedPod items (emit (CallList ns) ctl, d))))).
      rewrite Hc in IH.
      destruct (snd (runNamespaces _ _ _ _)); [|done].
      destruct IH as [Hall ->]. split; [done|].
      rewrite Hd, existsb_app. simpl.
      rewrite (existsb_discovered_options ctl _ _ Ho).
      rewrite (existsb_discovered_options ctl (emit (CallList ns) ctl))
        by done.
      by rewrite orb_assoc. }
    destruct (ListPods (client ctl) i ns) as [err|items|items|ty]; simpl;
      try done.
    + apply Hpass.
    + rewrite listedItem_loop. apply Hpass.
Qed.

(** A loop that ends with nothing discovered started with nothing
    discovered, made no call for any container and left the registry
    alone. *)
Lemma runNamespaces_nothing i nss d ctl :
  snd (runNamespaces i nss d ctl) = inl false ->
  d = false
  ∧ tailers (fst (runNamespaces i nss d ctl)) = tailers ctl
  ∧ grows bookkeeping ctl (fst (runNamespaces i nss d ctl)).
Proof.
  revert i d ctl. induction nss as [|ns rest IH]; intros i d ctl; simpl.
  - intros [= ->]. split; [done|]. split; [done|]. apply grows_refl.
  - assert (∀ items,
      snd (runNamespaces (S i) rest
             (snd (fold_left listedPod items (emit (CallList ns) ctl, d)))
             (emit (GoInformerRun ns)
                (fst (fold_left listedPod items
                        (emit (CallList ns) ctl, d))))) = inl false ->
      d = false
      ∧ tailers (fst (runNamespaces (S i) rest
             (snd (fold_left listedPod items (emit (CallList ns) ctl, d)))
             (emit (GoInformerRun ns)
                (fst (fold_left listedPod items
                        (emit (CallList ns) ctl, d)))))) = tailers ctl
      ∧ grows bookkeeping ctl (fst (runNamespaces (S i) rest
             (snd (fold_left listedPod items (emit (CallList ns) ctl, d)))
             (emit (GoInformerRun ns)
                (fst (fold_left listedPod items
                        (emit (CallList ns) ctl, d))))))) as Hpass.
    { intros items H. apply IH in H as (Hd & Ht & Hg).
      pose proof (listedPod_loop_nothing _ _ Hd) as Heq.
      rewrite Heq in Hd, Ht, Hg |- *. simpl in *.
      split; [done|]. split; [done|].
      eapply grows_trans; [|exact Hg].
      eapply grows_trans; by apply grows_emit. }
    destruct (ListPods (client ctl) i ns) as [err|items|items|ty]; simpl;
      try done.
    + apply Hpass.
    + rewrite listedItem_loop. apply Hpass.
Qed.

Lemma grows_keeps P ctl ctl' e :
  grows P ctl ctl' -> e ∈ trace ctl -> e ∈ trace ctl'.
Proof.
  intros (_ & _ & _ & _ & new & -> & _) He. apply elem_of_app. by right.
Qed.

(** A loop that runs to its end has subscribed every namespace. *)
Lemma runNamespaces_subscribed i nss d ctl d' :
  snd (runNamespaces i nss d ctl) = inl d' ->
  ∀ ns, ns ∈ nss -> GoInformerRun ns ∈ trace (fst (runNamespaces i nss d ctl)).
Proof.
  revert i d ctl. induction nss as [|ns rest IH]; intros i d ctl; simpl.
  - intros _ n Hn. by apply elem_of_nil in Hn.
  - assert (∀ s,
      snd (runNamespaces (S i) rest (snd s) (emit (GoInformerRun ns) (fst s)))
      = inl d' ->
      ∀ n, n ∈ ns :: rest ->
        GoInformerRun n ∈ trace (fst (runNamespaces (S i) rest (snd s)
                                        (emit (GoInformerRun ns) (fst s)))))
      as Hpass.
    { intros s H n Hn. apply elem_of_cons in Hn as [->|Hn].
      - eapply grows_keeps; [apply runNamespaces_grows|]. simpl. left.
      - by eapply IH. }
    destruct (ListPods (client ctl) i ns) as [err|items|items|ty]; simpl;
      try done; apply Hpass.
Qed.

Lemma runNamespaces_app i pre rest d ctl :
  runNamespaces i (pre ++ rest) d ctl
  = match runNamespaces i pre d ctl with
    | (ctl1, inl d1) => runNamespaces (i + length pre) rest d1 ctl1
    | (ctl1, inr r) => (ctl1, inr r)
    end.
Proof.
  revert i d ctl. induction pre as [|ns pre IH]; intros i d ctl; simpl.
  - by rewrite Nat.add_0_r.
  - destruct (ListPods (client ctl) i ns) as [err|items|items|ty]; simpl;
      try done; rewrite IH; by replace (S i + length pre) with (i + S (length pre)) by lia.
Qed.

(** ** Where registry entries come from *)

Lemma addContainer_registryAll Q ctl pod container initialAdd :
  (∀ ts, Q (NewContainerTailer pod container ts)) ->
  registryAll Q ctl ->
  registryAll Q (addContainer ctl pod container initialAdd).
Proof.
  intros HQ Hall key tailer.
  destruct (addContainer_cases ctl pod container initialAdd)
    as [[_ ->]|[(_ & -> & _)|[(_ & -> & _)|(_ & ts & -> & _)]]];
    try apply Hall.
  destruct (decide (buildKey pod container = key)) as [<-|Hne].
  - rewrite lookup_insert_eq. by intros [= <-].
  - rewrite lookup_insert_ne by done. apply Hall.
Qed.

Lemma onInitialAdd_registryAll Q ctl pod :
  (∀ c ts, Q (NewContainerTailer pod c ts)) ->
  registryAll Q ctl -> registryAll Q (fst (onInitialAdd ctl pod)).
Proof.
  intros HQ. rewrite onInitialAdd_included. simpl. unfold addAll.
  apply (fold_left_rel (fun c c' => registryAll Q c -> registryAll Q c'));
    auto.
  intros ctl' c _. by apply addContainer_registryAll.
Qed.

Lemma listedPod_loop_registryAll Q items s :
  (∀ pod, pod ∈ items -> ∀ c ts, Q (NewContainerTailer pod c ts)) ->
  registryAll Q (fst s) -> registryAll Q (fst (fold_left listedPod items s)).
Proof.
  intros HQ.
  apply (fold_left_rel
           (fun s s' => registryAll Q (fst s) -> registryAll Q (fst s')));
    auto.
  intros s' pod Hpod. unfold listedPod. simpl.
  apply onInitialAdd_registryAll. by apply HQ.
Qed.

Lemma runNamespaces_registryAll Q i nss d ctl :
  (∀ j ns pod, ns ∈ nss -> pod ∈ podsOf (ListPods (client ctl) j ns) ->
               ∀ c ts, Q (NewContainerTailer pod c ts)) ->
  registryAll Q ctl -> registryAll Q (fst (runNamespaces i nss d ctl)).
Proof.
  revert i d ctl. induction nss as [|ns rest IH]; intros i d ctl HQ Hall;
    simpl; [done|].
  assert (∀ items,
    (∀ pod, pod ∈ items -> ∀ c ts, Q (NewContainerTailer pod c ts)) ->
    registryAll Q (fst (runNamespaces (S i) rest
       (snd (fold_left listedPod items (emit (CallList ns) ctl, d)))
       (emit (GoInformerRun ns)
          (fst (fold_left listedPod items (emit (CallList ns) ctl, d)))))))
    as Hpass.
  { intros items Hitems.
    destruct (listing_pass_grows ns rest items
                (emit (CallList ns) ctl, d) ctl eq_refl) as (_ & Hc & _).
    apply IH.
    - rewrite Hc. intros j n pod Hn. apply HQ. by right.
    - by apply (listedPod_loop_registryAll Q items
                  (emit (CallList ns) ctl, d)). }
  pose proof (HQ i ns) as Hns.
  destruct (ListPods (client ctl) i ns) as [err|items|items|ty]; simpl;
    try done.
  - apply Hpass. intros pod Hpod. apply Hns; [left | done].
  - rewrite listedItem_loop. apply Hpass.
    intros pod Hpod. apply Hns; [left | done].
Qed.

Lemma loopEvent_not_nothing nss e :
  loopEvent nss e -> isNothingDiscovered e = false.
Proof.
  intros [(pod & c & H)|(ns & _ & [->| ->])]; [|done..].
  by destruct e.
Qed.

Lemma bookkeeping_no_call which :
  which = isNewTailer ∨ which = isOnEnter ->
  ∀ e, bookkeeping e -> which e = false.
Proof. intros [->| ->] e; by destruct e. Qed.

(* ===================================================================== *)
(** * [Run]: empty discovery and listing failure *)
(* ===================================================================== *)

(** C5: [Run] calls [OnNothingDiscovered] once, and then every configured
    namespace has been listed and subscribed, exactly when every listing
    returned and no container of any listed pod passes the inclusion
    policy; otherwise it does not call it.  When it calls it, no session
    was started and [OnEnter] was not called; when a session was started,
    it does not call it. *)
Theorem Run_nothing_discovered ctl :
  let responses := responsesFrom (client ctl) 0 (Namespaces (options ctl)) in
  let nothing :=
    forallb isListing responses
    && negb (existsb (discovered ctl) (flat_map podsOf responses)) in
  calls isNothingDiscovered (trace (fst (Run ctl)))
  = calls isNothingDiscovered (trace ctl) + (if nothing then 1 else 0)
  ∧ (nothing = true ->
     snd (Run ctl) = RunCtxErr
     ∧ tailers (fst (Run ctl)) = tailers ctl
     ∧ calls isNewTailer (trace (fst (Run ctl)))
       = calls isNewTailer (trace ctl)
     ∧ calls isOnEnter (trace (fst (Run ctl))) = calls isOnEnter (trace ctl)
     ∧ ∃ older,
         trace (fst (Run ctl))
         = CloseStopCh :: CallOnNothingDiscovered :: older
         ∧ ∀ ns, ns ∈ Namespaces (options ctl) -> GoInformerRun ns ∈ older)
  ∧ (calls isNewTailer (trace (fst (Run ctl)))
     ≠ calls isNewTailer (trace ctl) ->
     calls isNothingDiscovered (trace (fst (Run ctl)))
     = calls isNothingDiscovered (trace ctl)).
Proof.
  intros responses nothing.
  pose proof (runNamespaces_result 0 (Namespaces (options ctl)) false ctl)
    as Hres.
  pose proof (runNamespaces_grows 0 (Namespaces (options ctl)) false ctl)
    as Hgrow.
  pose proof (runNamespaces_nothing 0 (Namespaces (options ctl)) false ctl)
    as Hnone.
  pose proof (runNamespaces_subscribed 0 (Namespaces (options ctl)) false ctl)
    as Hsub.
  pose proof (grows_calls isNothingDiscovered _ _ _
                (loopEvent_not_nothing _) Hgrow) as Hcount.
  fold responses in Hres. unfold Run.
  destruct (runNamespaces 0 (Namespaces (options ctl)) false ctl)
    as [ctl1 [d1|r]]; simpl in *.
  - destruct Hres as [Hall ->]. subst nothing. rewrite Hall. simpl.
    destruct (existsb (discovered ctl) (flat_map podsOf responses)); simpl.
    + split; [unfold calls in *; simpl; lia|]. split; [done|]. intros _.
      unfold calls in *. simpl. lia.
    + destruct (Hnone eq_refl) as (_ & Ht & Hg).
      pose proof (grows_calls isNewTailer _ _ _
                    (bookkeeping_no_call _ (or_introl eq_refl)) Hg) as Hn.
      pose proof (grows_calls isOnEnter _ _ _
                    (bookkeeping_no_call _ (or_intror eq_refl)) Hg) as He.
      unfold calls in *. simpl.
      split; [lia|]. split; [|intros H; by destruct H].
      intros _. repeat (split; [done|]). exists (trace ctl1).
      split; [done|]. by apply (Hsub false).
  - subst nothing. rewrite Hres. simpl.
    unfold calls in *. simpl. split; [lia|]. split; [done|]. intros _. lia.
Qed.

(** C9: when the listing for a namespace fails after the namespaces
    before it were listed, [Run] returns that error wrapped with the
    namespace; nothing happens between the failed listing and the return
    but closing the stop channel, so the namespace is not subscribed and
    the registry is as the earlier namespaces left it; it holds no tailer
    for a pod of the failed namespace if it held none at the start, the
    namespace was not processed before and listings return pods of the
    namespace listed. *)
Theorem Run_listing_error ctl pre ns post err :
  Namespaces (options ctl) = pre ++ ns :: post ->
  forallb isListing (responsesFrom (client ctl) 0 pre) = true ->
  ListPods (client ctl) (length pre) ns = ListFailed err ->
  let before := fst (runNamespaces 0 pre false ctl) in
  Run ctl = (emit CloseStopCh (emit (CallList ns) before),
             RunError (ErrListingPods ns err))
  ∧ Unwrap (ErrListingPods ns err) = Some err
  ∧ tailers (fst (Run ctl)) = tailers before
  ∧ (ns ∉ pre -> GoInformerRun ns ∉ trace ctl ->
     GoInformerRun ns ∉ trace (fst (Run ctl)))
  ∧ (ns ∉ pre ->
     (∀ j n pod, n ∈ pre -> pod ∈ podsOf (ListPods (client ctl) j n) ->
                 Pod.Namespace pod = n) ->
     registryAll (fun t => Pod.Namespace (ContainerTailer.pod t) ≠ ns) ctl ->
     registryAll (fun t => Pod.Namespace (ContainerTailer.pod t) ≠ ns)
       (fst (Run ctl))).
Proof.
  intros Hns Hpre Herr before.
  pose proof (runNamespaces_result 0 pre false ctl) as Hres.
  pose proof (runNamespaces_grows 0 pre false ctl) as Hgrow.
  pose proof (runNamespaces_registryAll
                (fun t => Pod.Namespace (ContainerTailer.pod t) ≠ ns)
                0 pre false ctl) as Hreg.
  assert (Run ctl = (emit CloseStopCh (emit (CallList ns) before),
                     RunError (ErrListingPods ns err))) as HRun.
  { unfold Run. rewrite Hns, runNamespaces_app. subst before.
    destruct (runNamespaces 0 pre false ctl) as [ctl1 [d1|r]]; simpl in *.
    - destruct Hgrow as (_ & Hc & _). by rewrite Hc, Herr.
    - congruence. }
  rewrite HRun. simpl. split; [done|]. split; [done|]. split; [done|].
  split.
  - intros Hnot Hold Hin.
    apply elem_of_cons in Hin as [[=]|Hin].
    apply elem_of_cons in Hin as [[=]|Hin].
    destruct Hgrow as (_ & _ & _ & _ & new & Htr & Hall).
    fold before in Htr. rewrite Htr in Hin.
    apply elem_of_app in Hin as [Hin|Hin]; [|done].
    rewrite Forall_forall in Hall.
    destruct (Hall _ Hin) as [(pod & c & [])|(n & Hn & [[=]|[= ->]])].
    done.
  - intros Hnot Hcontract Hold. apply Hreg; [|done].
    intros j n pod Hn Hpod c ts. simpl.
    rewrite (Hcontract j n pod Hn Hpod). by intros ->.
Qed.

(* ===================================================================== *)
(** * The properties at the sample objects *)
(* ===================================================================== *)

Lemma shouldIncludeContainer_iff_witness :
  shouldIncludeContainer Sample.started Sample.p1 Sample.c1 = true.
Proof.
  apply shouldIncludeContainer_iff.
  split; [by right|]. split.
  { exists (Sample.runningSince "c1" Sample.t2).
    split; [apply elem_of_app; right; left|]. split; [reflexivity|].
    right; left. by eexists. }
  split; [by left|]. split; [reflexivity|]. split; [by left | reflexivity].
Defined.

Lemma getStartTimestamp_policy_witness :
  getStartTimestamp Sample.sinceStart Sample.p1 Sample.c1 false = (None, true)
  ∧ getStartTimestamp Sample.since Sample.p1 Sample.c1 true
    = (Some Sample.t0, true)
  ∧ (∃ t, getStartTimestamp Sample.started Sample.p1 Sample.c1 true
          = (Some t, true)
        ∧ time.UnixNano t = 1700000995000000000%Z)
  ∧ (∃ t, getStartTimestamp Sample.started Sample.p1 Sample.c1 false
          = (Some t, true)
        ∧ earliestOf t [Sample.t2; Sample.t1])
  ∧ getStartTimestamp Sample.started Sample.p1 Sample.c2 false = (None, false).
Proof.
  split.
  { apply (getStartTimestamp_policy Sample.sinceStart Sample.p1 Sample.c1
             false). reflexivity. }
  split.
  { apply (getStartTimestamp_policy Sample.since Sample.p1 Sample.c1 true);
      reflexivity. }
  split.
  { destruct (getStartTimestamp_policy Sample.started Sample.p1 Sample.c1
                true) as (_ & _ & H & _).
    exact (H eq_refl eq_refl eq_refl). }
  split.
  { destruct (getStartTimestamp_policy Sample.started Sample.p1 Sample.c1
                false) as (_ & _ & _ & H & _).
    exact (H eq_refl eq_refl eq_refl). }
  destruct (getStartTimestamp_policy Sample.started Sample.p1 Sample.c2
              false) as (_ & _ & _ & H & _).
  exact (H eq_refl eq_refl eq_refl).
Defined.

Lemma addContainer_at_most_one_session_witness :
  addContainer Sample.started Sample.p1 Sample.c1 false = Sample.started
  ∧ tailers (addContainer Sample.started Sample.single Sample.c1 false)
      !! "ns1/p1/c1"
    = Some (NewContainerTailer Sample.p1 Sample.c1
              (Some (time.mkTime 1700000995 0)))
  ∧ (live "ns1/p1/c1"
       (trace (performAll
                 (Sample.fresh ["ns1"] (Sample.serves [Sample.p1]) Sample.accept)
                 [DoAdd Sample.p1; DoUpdate Sample.p1; DoAdd Sample.p1;
                  DoDelete Sample.p1; DoUpdate Sample.p1])) ≤ 1)%nat.
Proof.
  destruct addContainer_at_most_one_session as (Hsame & Hkeep & Hseq).
  split.
  { apply Hsame. vm_compute. by eexists. }
  split.
  { apply Hkeep. vm_compute. reflexivity. }
  apply (Hseq (Sample.serves [Sample.p1])
           (Sample.opts ["ns1"] Sample.matchAll) Sample.accept Sample.noon).
Defined.

Lemma onUpdate_onDelete_regular_only_witness :
  tailers (onDelete Sample.started Sample.p1) !! "ns1/p1/init-a"
  = tailers Sample.started !! "ns1/p1/init-a"
  ∧ tailers (onUpdate Sample.started Sample.p1) !! "ns1/p1/init-a"
    = tailers Sample.started !! "ns1/p1/init-a".
Proof.
  destruct (onUpdate_onDelete_regular_only Sample.started Sample.p1)
    as (_ & _ & _ & H).
  assert (∀ c, c ∈ PodSpec.Containers (Pod.Spec Sample.p1) ->
               Container.Name c ≠ Container.Name Sample.initA) as Hnames.
  { intros c Hc. simpl in Hc.
    apply elem_of_cons in Hc as [->|Hc]; [discriminate|].
    apply elem_of_cons in Hc as [->|Hc]; [discriminate|].
    by apply elem_of_nil in Hc. }
  destruct (H Sample.initA (list_elem_of_here _ _) Hnames)
    as (Hu & _ & Hd & _).
  split; [exact Hd | exact Hu].
Defined.

Lemma addContainer_veto_witness :
  tailers (addContainer Sample.vetoed Sample.single Sample.c1 true)
    !! "ns1/single/c1" = None
  ∧ trace (addContainer Sample.vetoed Sample.single Sample.c1 true)
    = [CallOnEnter Sample.single Sample.c1 true false].
Proof.
  destruct (addContainer_veto Sample.vetoed Sample.single Sample.c1 true
              eq_refl eq_refl) as (Heq & _ & Hkey & _).
  split; [exact Hkey|]. rewrite Heq. reflexivity.
Defined.

Lemma deleteContainer_absent_or_present_witness :
  deleteContainer Sample.vetoed Sample.single Sample.c1 = Sample.vetoed
  ∧ tailers (deleteContainer Sample.started Sample.p1 Sample.c1)
      !! "ns1/p1/c1" = None.
Proof.
  split.
  - apply (deleteContainer_absent_or_present Sample.vetoed Sample.single
             Sample.c1). reflexivity.
  - destruct (deleteContainer_absent_or_present Sample.started Sample.p1
                Sample.c1) as [_ H].
    eapply H. vm_compute. reflexivity.
Defined.

Lemma Run_nothing_discovered_witness :
  calls isNothingDiscovered (trace (fst (Run Sample.quiet))) = 1
  ∧ snd (Run Sample.quiet) = RunCtxErr
  ∧ tailers (fst (Run Sample.quiet)) = ∅.
Proof.
  destruct (Run_nothing_discovered Sample.quiet) as (Hcount & Hnone & _).
  destruct (Hnone eq_refl) as (Hres & Ht & _).
  split; [exact Hcount|]. split; [exact Hres | exact Ht].
Defined.

(** C5, as worded, at [Sample.vetoed]: every namespace is listed, the one
    included container is vetoed by [OnEnter], so no session is started;
    [discoveredAny] is set all the same and [OnNothingDiscovered] is not
    called. *)
Lemma Run_vetoed_start_counterexample :
  snd (Run Sample.vetoed) = RunCtxErr
  ∧ ¬ (calls isNothingDiscovered (trace (fst (Run Sample.vetoed))) = 1
       ↔ calls isNewTailer (trace (fst (Run Sample.vetoed))) = 0).
Proof.
  split; [reflexivity|]. intros [_ H].
  assert (calls isNewTailer (trace (fst (Run Sample.vetoed))) = 0) as H0
    by reflexivity.
  apply H in H0. vm_compute in H0. discriminate.
Qed.

Lemma Run_listing_error_witness :
  Run Sample.failing
  = (emit CloseStopCh
       (emit (CallList "ns2")
          (fst (runNamespaces 0 ["ns1"] false Sample.failing))),
     RunError (ErrListingPods "ns2" (ErrOpaque "connection refused")))
  ∧ registryAll (fun t => Pod.Namespace (ContainerTailer.pod t) ≠ "ns2")
      (fst (Run Sample.failing)).
Proof.
  destruct (Run_listing_error Sample.failing ["ns1"] "ns2" []
              (ErrOpaque "connection refused") eq_refl eq_refl eq_refl)
    as (HRun & _ & _ & _ & Hreg).
  split; [exact HRun|].
  apply Hreg.
  - intros Hin. apply elem_of_cons in Hin as [[=]|Hin].
    by apply elem_of_nil in Hin.
  - intros j n pod Hn Hpod.
    apply elem_of_cons in Hn as [->|Hn]; [|by apply elem_of_nil in Hn].
    destruct j; simpl in Hpod; [|by apply elem_of_nil in Hpod].
    apply elem_of_cons in Hpod as [->|Hpod]; [reflexivity|].
    by apply elem_of_nil in Hpod.
  - intros key tailer Hk. simpl in Hk. rewrite lookup_empty in Hk.
    discriminate.
Defined.

(* ===================================================================== *)
(** * Further properties: keys *)
(* ===================================================================== *)

Lemma slash_split (a a' r r' : string) :
  hasSlash a = false -> hasSlash a' = false ->
  a +:+ "/" +:+ r = a' +:+ "/" +:+ r' -> a = a' ∧ r = r'.
Proof.
  revert a'. induction a as [|x a IH]; intros [|x' a'] Ha Ha' H; simpl in *.
  - by injection H.
  - injection H as Hx _. subst x'. simpl in Ha'. done.
  - injection H as Hx _. subst x. simpl in Ha. done.
  - injection H as Hx H. subst x'.
    apply orb_false_iff in Ha as [_ Ha]. apply orb_false_iff in Ha' as [_ Ha'].
    destruct (IH a' Ha Ha' H) as [-> ->]. done.
Qed.

(** X1: when the namespaces and pod names hold no "/", two keys are equal
    only for the same namespace, pod name and container name. *)
Theorem buildKey_injective pod pod' container container' :
  hasSlash (Pod.Namespace pod) = false -> hasSlash (Pod.Name pod) = false ->
  hasSlash (Pod.Namespace pod') = false -> hasSlash (Pod.Name pod') = false ->
  buildKey pod container = buildKey pod' container' ->
  Pod.Namespace pod = Pod.Namespace pod'
  ∧ Pod.Name pod = Pod.Name pod'
  ∧ Container.Name container = Container.Name container'.
Proof.
  intros Hn Hp Hn' Hp' H. unfold buildKey in H.
  apply slash_split in H as [Hns H]; [|done..].
  apply slash_split in H as [Hpod H]; done.
Qed.

(* ===================================================================== *)
(** * Further properties: sessions *)
(* ===================================================================== *)


(* ===================================================================== *)
(** * Further properties: the handlers *)
(* ===================================================================== *)

Lemma filter_none {A} (f : A -> bool) l :
  (∀ x, x ∈ l -> f x = false) -> List.filter f l = [].
Proof.
  induction l as [|x l IH]; intros H; simpl; [done|].
  rewrite (H x) by left. apply IH. intros y Hy. apply H. by right.
Qed.

Lemma included_none ctl pod :
  (∀ c, shouldIncludeContainer ctl pod c = false) -> included ctl pod = [].
Proof. intros H. unfold included. apply filter_none. auto. Qed.

Lemma shouldIncludeContainer_no_status ctl pod container :
  PodStatus.InitContainerStatuses (Pod.Status pod) = [] ->
  PodStatus.ContainerStatuses (Pod.Status pod) = [] ->
  shouldIncludeContainer ctl pod container = false.
Proof.
  intros Hi Hc. rewrite shouldIncludeContainer_chain.
  unfold allContainerStatusesForPod. rewrite Hi, Hc. simpl.
  by rewrite andb_false_r.
Qed.

(** X3: a pod that is neither Pending nor Running, or one without any
    status entry yet, goes through [onAdd] and [onInitialAdd] without a
    call and without a change, and is not reported as discovered; a pod
    without status entries goes through [onUpdate] the same way, so its
    sessions are not stopped. *)
Theorem handlers_ignore_unreported ctl pod :
  (PodStatus.Phase (Pod.Status pod) ≠ PodPending ->
   PodStatus.Phase (Pod.Status pod) ≠ PodRunning ->
   onAdd ctl pod = ctl ∧ onInitialAdd ctl pod = (ctl, false))
  ∧ (PodStatus.InitContainerStatuses (Pod.Status pod) = [] ->
     PodStatus.ContainerStatuses (Pod.Status pod) = [] ->
     onAdd ctl pod = ctl ∧ onInitialAdd ctl pod = (ctl, false)
     ∧ onUpdate ctl pod = ctl).
Proof.
  split.
  - intros H1 H2.
    assert (included ctl pod = []) as Hnone.
    { apply included_none. intros c.
      by apply shouldIncludeContainer_phase_gate. }
    rewrite onAdd_included, onInitialAdd_included. unfold discovered.
    by rewrite Hnone.
  - intros Hi Hc.
    assert (included ctl pod = []) as Hnone.
    { apply included_none. intros c.
      by apply shouldIncludeContainer_no_status. }
    rewrite onAdd_included, onInitialAdd_included. unfold discovered.
    rewrite Hnone. repeat (split; [done|]).
    unfold onUpdate, allContainerStatusesForPod. by rewrite Hi, Hc.
Qed.

Lemma fold_left_fixed {A B} (f : A -> B -> A) l a :
  (∀ b, b ∈ l -> f a b = a) -> fold_left f l a = a.
Proof.
  induction l as [|b l IH]; intros H; simpl; [done|].
  rewrite (H b) by left. apply IH. intros b' Hb'. apply H. by right.
Qed.

(** X4: [onUpdate] changes nothing and calls nothing when the registry
    already agrees with the policy on the pod: every regular container a
    status entry names is registered if it is included and unregistered
    if it is not. *)
Theorem onUpdate_steady ctl pod :
  (∀ s c, s ∈ allContainerStatusesForPod pod ->
     findContainer (PodSpec.Containers (Pod.Spec pod))
       (ContainerStatus.Name s) = Some c ->
     if shouldIncludeContainer ctl pod c
     then is_Some (tailers ctl !! buildKey pod c)
     else tailers ctl !! buildKey pod c = None) ->
  onUpdate ctl pod = ctl.
Proof.
  intros H. unfold onUpdate. apply fold_left_fixed. intros s Hs.
  unfold updateStep.
  destruct (findContainer _ _) as [c|] eqn:Hf; [|done].
  specialize (H s c Hs Hf).
  destruct (shouldIncludeContainer ctl pod c).
  - by apply addContainer_present.
  - unfold deleteContainer. by rewrite H.
Qed.

Lemma deleteContainer_absent_stays ctl pod container key :
  tailers ctl !! key = None ->
  tailers (deleteContainer ctl pod container) !! key = None.
Proof.
  intros Hk.
  destruct (deleteContainer_cases ctl pod container)
    as [[_ ->]|(t & _ & -> & _)]; [done|].
  destruct (decide (buildKey pod container = key)) as [<-|Hne].
  - apply lookup_delete_eq.
  - by rewrite lookup_delete_ne.
Qed.

Lemma deleteContainer_clears ctl pod container :
  tailers (deleteContainer ctl pod container) !! buildKey pod container
  = None.
Proof.
  destruct (deleteContainer_cases ctl pod container)
    as [[Hk ->]|(t & _ & -> & _)]; [done|]. apply lookup_delete_eq.
Qed.

Lemma delete_loop_absent pod l ctl key :
  tailers ctl !! key = None ->
  tailers (fold_left (fun ctl c => deleteContainer ctl pod c) l ctl) !! key
  = None.
Proof.
  apply (fold_left_rel
           (fun c c' => tailers c !! key = None -> tailers c' !! key = None));
    auto.
  intros ctl' c _. apply deleteContainer_absent_stays.
Qed.

Lemma delete_loop_clears pod l ctl container :
  container ∈ l ->
  tailers (fold_left (fun ctl c => deleteContainer ctl pod c) l ctl)
    !! buildKey pod container = None.
Proof.
  revert ctl. induction l as [|c l IH]; intros ctl Hin; simpl.
  - by apply elem_of_nil in Hin.
  - apply elem_of_cons in Hin as [->|Hin]; [|by apply IH].
    apply delete_loop_absent, deleteContainer_clears.
Qed.

(** X5: after [onDelete] no regular container of the pod is registered,
    every other key has the entry it had, and a second [onDelete] for the
    pod changes nothing and calls nothing. *)
Theorem onDelete_clears_regular ctl pod :
  (∀ c, c ∈ PodSpec.Containers (Pod.Spec pod) ->
        tailers (onDelete ctl pod) !! buildKey pod c = None)
  ∧ (∀ key, (∀ c, c ∈ PodSpec.Containers (Pod.Spec pod) ->
                  buildKey pod c ≠ key) ->
            tailers (onDelete ctl pod) !! key = tailers ctl !! key)
  ∧ onDelete (onDelete ctl pod) pod = onDelete ctl pod.
Proof.
  assert (∀ c, c ∈ PodSpec.Containers (Pod.Spec pod) ->
               tailers (onDelete ctl pod) !! buildKey pod c = None) as Hclear.
  { intros c Hc. unfold onDelete. by apply delete_loop_clears. }
  split; [done|]. split; [intros key Hkey; by apply onDelete_other_key|].
  unfold onDelete at 1. apply fold_left_fixed. intros c Hc.
  unfold deleteContainer. by rewrite (Hclear c Hc).
Qed.

(** ** [onUpdate], one key at a time *)

Lemma concerns_other_key pod container key e :
  buildKey pod container ≠ key -> concerns pod container e ->
  isStopOf key e = false ∧ isExitOf key e = false.
Proof.
  intros Hne He. destruct e; simpl in *; try done.
  - split; [|done]. apply String.eqb_neq. by intros ->.
  - split; [done|]. destruct He as [-> ->]. by apply String.eqb_neq.
Qed.

Lemma getStartTimestamp_ok_options ctl ctl' pod container initialAdd :
  options ctl' = options ctl ->
  snd (getStartTimestamp ctl' pod container initialAdd)
  = snd (getStartTimestamp ctl pod container initialAdd).
Proof.
  intros Ho. unfold getStartTimestamp. rewrite Ho.
  repeat case_match; simpl in *; congruence.
Qed.

(** An accepted start whose timestamp resolves registers the key. *)
Lemma addContainer_registers ctl pod container initialAdd :
  OnEnter (callbacks ctl) (trace ctl) pod container initialAdd = true ->
  snd (getStartTimestamp ctl pod container initialAdd) = true ->
  is_Some (tailers (addContainer ctl pod container initialAdd)
             !! buildKey pod container).
Proof.
  intros Henter Hts. unfold addContainer.
  destruct (tailers ctl !! buildKey pod container) as [t|] eqn:Hk;
    [rewrite Hk; eauto|].
  rewrite Henter. simpl.
  rewrite <- (getStartTimestamp_ok_options ctl
    (emit (CallGetStartTimestamp pod container initialAdd)
       (emit (CallOnEnter pod container initialAdd true) ctl))) in Hts by done.
  destruct (getStartTimestamp _ pod container initialAdd) as [ts ok].
  simpl in Hts. subst ok. simpl. rewrite lookup_insert_eq. eauto.
Qed.

(** [addContainer] produces start events only. *)
Lemma addContainer_starts ctl pod container initialAdd :
  grows startEvent ctl (addContainer ctl pod container initialAdd).
Proof.
  destruct (addContainer_static ctl pod container initialAdd)
    as (? & ? & ? & ?).
  repeat (split; [done|]).
  destruct (addContainer_cases ctl pod container initialAdd)
    as [[_ ->]|[(_ & _ & ->)|[(_ & _ & ->)|(_ & ts & _ & ->)]]].
  - by exists [].
  - eexists [_]. split; [reflexivity|]. by repeat constructor.
  - eexists [_; _]. split; [reflexivity|]. by repeat constructor.
  - eexists [_; _; _; _]. split; [reflexivity|]. by repeat constructor.
Qed.

Lemma startEvent_no_stop e :
  startEvent e ->
  isStop e = false ∧ isOnExit e = false
  ∧ ∀ key, isStopOf key e = false ∧ isExitOf key e = false.
Proof. by destruct e. Qed.

Section UpdateOneKey.

Variables (ctl : Controller) (pod : Pod.t) (container : Container.t).
Hypothesis first_of_its_name :
  findContainer (PodSpec.Containers (Pod.Spec pod))
    (Container.Name container) = Some container.

(** An entry with the container's name is handled as the container. *)
Lemma updateStep_on_name ctl' s :
  ContainerStatus.Name s = Container.Name container ->
  updateStep pod ctl' s
  = if shouldIncludeContainer ctl' pod container
    then addContainer ctl' pod container false
    else deleteContainer ctl' pod container.
Proof using first_of_its_name.
  intros Hn. unfold updateStep. by rewrite Hn, first_of_its_name.
Qed.

(** An entry with another name leaves the container's key alone. *)
Lemma updateStep_off_name ctl' s :
  ContainerStatus.Name s ≠ Container.Name container ->
  tailers (updateStep pod ctl' s) !! buildKey pod container
  = tailers ctl' !! buildKey pod container
  ∧ calls (isStopOf (buildKey pod container)) (trace (updateStep pod ctl' s))
    = calls (isStopOf (buildKey pod container)) (trace ctl')
  ∧ calls (isExitOf (buildKey pod container)) (trace (updateStep pod ctl' s))
    = calls (isExitOf (buildKey pod container)) (trace ctl').
Proof.
  intros Hn. unfold updateStep.
  destruct (findContainer (PodSpec.Containers (Pod.Spec pod))
              (ContainerStatus.Name s)) as [c'|] eqn:Hf; [|done].
  apply findContainer_Some in Hf as [_ Hc'].
  assert (buildKey pod c' ≠ buildKey pod container) as Hne.
  { intros Heq. apply buildKey_name in Heq. congruence. }
  destruct (shouldIncludeContainer ctl' pod c').
  - split; [by apply addContainer_other_key|].
    split; (eapply grows_calls; [|apply addContainer_grows]);
      intros e He; by apply (concerns_other_key pod c').
  - split; [by apply deleteContainer_other_key|].
    split; (eapply grows_calls; [|apply deleteContainer_grows]);
      intros e He; by apply (concerns_other_key pod c').
Qed.

Lemma updateStep_options ctl' s :
  options (updateStep pod ctl' s) = options ctl'
  ∧ callbacks (updateStep pod ctl' s) = callbacks ctl'.
Proof.
  destruct (updateStep_grows pod ctl' s) as (Ho & _ & Hc & _). done.
Qed.

(** The loop of [onUpdate] when the container is not included. *)
Lemma update_loop_excluded l ctl' :
  shouldIncludeContainer ctl pod container = false ->
  options ctl' = options ctl ->
  let hit := existsb (fun s => String.eqb (ContainerStatus.Name s)
                                 (Container.Name container)) l in
  let loop := fold_left (updateStep pod) l ctl' in
  tailers loop !! buildKey pod container
  = (if hit then None else tailers ctl' !! buildKey pod container)
  ∧ calls (isStopOf (buildKey pod container)) (trace loop)
    = calls (isStopOf (buildKey pod container)) (trace ctl')
      + (if hit && notNil (tailers ctl' !! buildKey pod container)
         then 1 else 0)
  ∧ calls (isExitOf (buildKey pod container)) (trace loop)
    = calls (isExitOf (buildKey pod container)) (trace ctl')
      + (if hit && notNil (tailers ctl' !! buildKey pod container)
         then 1 else 0).
Proof using first_of_its_name.
  intros Hex. revert ctl'. induction l as [|s l IH]; intros ctl' Ho; simpl.
  - repeat split; lia.
  - destruct (updateStep_options ctl' s) as [Ho' _].
    specialize (IH (updateStep pod ctl' s) (eq_trans Ho' Ho)).
    simpl in IH. destruct IH as (IHt & IHs & IHe).
    rewrite IHt, IHs, IHe.
    destruct (String.eqb_spec (ContainerStatus.Name s)
                (Container.Name container)) as [Hn|Hn]; simpl.
    + rewrite (updateStep_on_name ctl' s Hn).
      rewrite (shouldIncludeContainer_options ctl ctl') by done.
      rewrite Hex.
      destruct (existsb _ l);
        destruct (deleteContainer_cases ctl' pod container)
          as [[Hk ->]|(t & Hk & Ht & Htr)];
        rewrite ?Ht, ?Htr, ?Hk, ?lookup_delete_eq; unfold calls; simpl;
        rewrite ?String.eqb_refl; simpl; repeat split; lia.
    + destruct (updateStep_off_name ctl' s Hn) as (-> & -> & ->). done.
Qed.

(** The loop of [onUpdate] when the container is included: its entry
    stays, and nothing is stopped under its key. *)
Lemma update_loop_included l ctl' :
  shouldIncludeContainer ctl pod container = true ->
  options ctl' = options ctl ->
  let loop := fold_left (updateStep pod) l ctl' in
  (∀ t, tailers ctl' !! buildKey pod container = Some t ->
        tailers loop !! buildKey pod container = Some t)
  ∧ calls (isStopOf (buildKey pod container)) (trace loop)
    = calls (isStopOf (buildKey pod container)) (trace ctl')
  ∧ calls (isExitOf (buildKey pod container)) (trace loop)
    = calls (isExitOf (buildKey pod container)) (trace ctl').
Proof using first_of_its_name.
  intros Hin. revert ctl'. induction l as [|s l IH]; intros ctl' Ho; simpl.
  - done.
  - destruct (updateStep_options ctl' s) as [Ho' _].
    specialize (IH (updateStep pod ctl' s) (eq_trans Ho' Ho)).
    simpl in IH. destruct IH as (IHt & IHs & IHe).
    rewrite IHs, IHe.
    destruct (String.eqb_spec (ContainerStatus.Name s)
                (Container.Name container)) as [Hn|Hn].
    + rewrite (updateStep_on_name ctl' s Hn) in *.
      rewrite (shouldIncludeContainer_options ctl ctl') in * by done.
      rewrite Hin in *. split.
      * intros t Ht. apply IHt. by apply addContainer_keeps.
      * split; (eapply grows_calls; [|apply addContainer_starts]);
          intros e He; by apply startEvent_no_stop.
    + destruct (updateStep_off_name ctl' s Hn) as (Ht & -> & ->).
      split; [|done]. intros t Hk. apply IHt. by rewrite Ht.
Qed.

(** With an embedder that accepts and a timestamp that resolves, an entry
    with the container's name gets the container registered. *)
Lemma update_loop_registers l ctl' :
  shouldIncludeContainer ctl pod container = true ->
  alwaysAccepts ctl ->
  snd (getStartTimestamp ctl pod container false) = true ->
  options ctl' = options ctl -> callbacks ctl' = callbacks ctl ->
  (∃ s, s ∈ l ∧ ContainerStatus.Name s = Container.Name container) ->
  is_Some (tailers (fold_left (updateStep pod) l ctl')
             !! buildKey pod container).
Proof using first_of_its_name.
  intros Hin Hacc Hts. revert ctl'.
  induction l as [|s l IH]; intros ctl' Ho Hc (s0 & Hs0 & Hn0); simpl.
  - by apply elem_of_nil in Hs0.
  - destruct (updateStep_options ctl' s) as [Ho' Hc'].
    destruct (String.eqb_spec (ContainerStatus.Name s)
                (Container.Name container)) as [Hn|Hn].
    + assert (is_Some (tailers (updateStep pod ctl' s)
                         !! buildKey pod container)) as [t Ht].
      { rewrite (updateStep_on_name ctl' s Hn).
        rewrite (shouldIncludeContainer_options ctl ctl') by done.
        rewrite Hin. apply addContainer_registers.
        - rewrite Hc. apply Hacc.
        - by rewrite (getStartTimestamp_ok_options ctl ctl'). }
      exists t.
      by apply (update_loop_included l (updateStep pod ctl' s) Hin
                  (eq_trans Ho' Ho)).
    + apply IH; [congruence | congruence |].
      apply elem_of_cons in Hs0 as [->|Hs0]; [done|]. eauto.
Qed.

End UpdateOneKey.

(** X6: when a status entry of the pod names a regular container that
    fails the inclusion policy, [onUpdate] leaves that container
    unregistered; if it was registered, its tailer is stopped once and
    [OnExit] is called once for it, otherwise neither happens. *)
Theorem onUpdate_stops_excluded ctl pod s container :
  s ∈ allContainerStatusesForPod pod ->
  findContainer (PodSpec.Containers (Pod.Spec pod)) (ContainerStatus.Name s)
  = Some container ->
  shouldIncludeContainer ctl pod container = false ->
  let key := buildKey pod container in
  let stopped := if notNil (tailers ctl !! key) then 1 else 0 in
  tailers (onUpdate ctl pod) !! key = None
  ∧ calls (isStopOf key) (trace (onUpdate ctl pod))
    = calls (isStopOf key) (trace ctl) + stopped
  ∧ calls (isExitOf key) (trace (onUpdate ctl pod))
    = calls (isExitOf key) (trace ctl) + stopped.
Proof.
  intros Hs Hf Hex key stopped.
  destruct (findContainer_Some _ _ _ Hf) as [_ Hn].
  assert (findContainer (PodSpec.Containers (Pod.Spec pod))
            (Container.Name container) = Some container) as Hfirst
    by (by rewrite Hn).
  pose proof (update_loop_excluded ctl pod container Hfirst
                (allContainerStatusesForPod pod) ctl Hex eq_refl) as H.
  simpl in H.
  assert (existsb (fun s => String.eqb (ContainerStatus.Name s)
                              (Container.Name container))
            (allContainerStatusesForPod pod) = true) as Hhit.
  { apply existsb_exists. exists s. split; [by apply list_elem_of_In|].
    by apply String.eqb_eq. }
  rewrite Hhit in H. exact H.
Qed.

(** X7: a session of a regular container that passes the inclusion policy
    survives [onUpdate]: its registry entry is kept as it is and neither
    [Stop] nor [OnExit] is called for its key. *)
Theorem onUpdate_keeps_included ctl pod container :
  findContainer (PodSpec.Containers (Pod.Spec pod)) (Container.Name container)
  = Some container ->
  shouldIncludeContainer ctl pod container = true ->
  let key := buildKey pod container in
  (∀ t, tailers ctl !! key = Some t ->
        tailers (onUpdate ctl pod) !! key = Some t)
  ∧ calls (isStopOf key) (trace (onUpdate ctl pod))
    = calls (isStopOf key) (trace ctl)
  ∧ calls (isExitOf key) (trace (onUpdate ctl pod))
    = calls (isExitOf key) (trace ctl).
Proof.
  intros Hfirst Hin key.
  exact (update_loop_included ctl pod container Hfirst
           (allContainerStatusesForPod pod) ctl Hin eq_refl).
Qed.

(** X8: when a status entry of the pod names a regular container that
    passes the inclusion policy, [OnEnter] never vetoes and the start
    timestamp of a non-initial add resolves, the container is registered
    after [onUpdate]. *)
Theorem onUpdate_starts_included ctl pod s container :
  s ∈ allContainerStatusesForPod pod ->
  findContainer (PodSpec.Containers (Pod.Spec pod)) (ContainerStatus.Name s)
  = Some container ->
  shouldIncludeContainer ctl pod container = true ->
  alwaysAccepts ctl ->
  snd (getStartTimestamp ctl pod container false) = true ->
  is_Some (tailers (onUpdate ctl pod) !! buildKey pod container).
Proof.
  intros Hs Hf Hin Hacc Hts.
  destruct (findContainer_Some _ _ _ Hf) as [_ Hn].
  assert (findContainer (PodSpec.Containers (Pod.Spec pod))
            (Container.Name container) = Some container) as Hfirst
    by (by rewrite Hn).
  apply (update_loop_registers ctl pod container Hfirst
           (allContainerStatusesForPod pod) ctl Hin Hacc Hts eq_refl eq_refl).
  eauto.
Qed.

(* ===================================================================== *)
(** * Further properties: what holds all along *)
(* ===================================================================== *)

(** A property of the controller that every policy-checked start, every
    stop and every event of [Run] itself respects holds across the
    handlers, across [Run], and across any sequence of notifications. *)
Section Everywhere.

Variable I : Controller -> Prop.
Hypothesis add_ok :
  ∀ ctl pod c initialAdd,
    shouldIncludeContainer ctl pod c = true ->
    I ctl -> I (addContainer ctl pod c initialAdd).
Hypothesis delete_ok : ∀ ctl pod c, I ctl -> I (deleteContainer ctl pod c).
Hypothesis emit_ok :
  ∀ ctl e, isBookkeeping e = true ∨ e = CallOnNothingDiscovered
           ∨ e = CloseStopCh ->
           I ctl -> I (emit e ctl).

Lemma everywhere_onInitialAdd ctl pod :
  I ctl -> I (fst (onInitialAdd ctl pod)).
Proof using add_ok.
  unfold onInitialAdd. intros H.
  apply (fold_left_rel (fun s s' => I (fst s) -> I (fst s'))); auto.
  - intros s c _. unfold initialAddStep.
    destruct (shouldIncludeContainer (fst s) pod c) eqn:Hin; simpl; auto.
  - revert H.
    apply (fold_left_rel (fun s s' => I (fst s) -> I (fst s'))
             (initialAddStep pod) _ (ctl, false)); auto.
    intros s c _. unfold initialAddStep.
    destruct (shouldIncludeContainer (fst s) pod c) eqn:Hin; simpl; auto.
Qed.

Lemma everywhere_onAdd ctl pod : I ctl -> I (onAdd ctl pod).
Proof using add_ok.
  unfold onAdd. intros H.
  apply (fold_left_rel (fun c c' => I c -> I c')); auto.
  - intros ctl' c _. unfold addStep.
    destruct (shouldIncludeContainer ctl' pod c) eqn:Hin; auto.
  - revert H. apply (fold_left_rel (fun c c' => I c -> I c')); auto.
    intros ctl' c _. unfold addStep.
    destruct (shouldIncludeContainer ctl' pod c) eqn:Hin; auto.
Qed.

Lemma everywhere_onUpdate ctl pod : I ctl -> I (onUpdate ctl pod).
Proof using add_ok delete_ok.
  unfold onUpdate. apply (fold_left_rel (fun c c' => I c -> I c')); auto.
  intros ctl' s _. unfold updateStep.
  destruct (findContainer _ _) as [c|]; [|done].
  destruct (shouldIncludeContainer ctl' pod c) eqn:Hin; auto.
Qed.

Lemma everywhere_onDelete ctl pod : I ctl -> I (onDelete ctl pod).
Proof using delete_ok.
  unfold onDelete. apply (fold_left_rel (fun c c' => I c -> I c')); auto.
Qed.

Lemma everywhere_notifications ctl actions :
  forallb isNotification actions = true ->
  I ctl -> I (performAll ctl actions).
Proof using add_ok delete_ok.
  unfold performAll. revert ctl.
  induction actions as [|a actions IH]; intros ctl Hn H; simpl; [done|].
  simpl in Hn. apply andb_true_iff in Hn as [Ha Hn].
  apply IH; [done|].
  destruct a; simpl in *; try done;
    auto using everywhere_onInitialAdd, everywhere_onAdd,
      everywhere_onUpdate, everywhere_onDelete.
Qed.

Lemma everywhere_listedPod_loop items s :
  I (fst s) -> I (fst (fold_left listedPod items s)).
Proof using add_ok.
  apply (fold_left_rel (fun s s' => I (fst s) -> I (fst s'))); auto.
  intros s' pod _. unfold listedPod. simpl. apply everywhere_onInitialAdd.
Qed.

Lemma everywhere_runNamespaces i nss d ctl :
  I ctl -> I (fst (runNamespaces i nss d ctl)).
Proof using add_ok emit_ok.
  revert i d ctl. induction nss as [|ns rest IH]; intros i d ctl H; simpl;
    [done|].
  assert (I (emit (CallList ns) ctl)) as H1 by (apply emit_ok; auto).
  destruct (ListPods (client ctl) i ns) as [err|items|items|ty]; simpl;
    try done.
  - apply IH, emit_ok; [auto|].
    by apply (everywhere_listedPod_loop items (emit (CallList ns) ctl, d)).
  - rewrite listedItem_loop. apply IH, emit_ok; [auto|].
    by apply (everywhere_listedPod_loop (podsAmong items)
                (emit (CallList ns) ctl, d)).
Qed.

Lemma everywhere_Run ctl : I ctl -> I (fst (Run ctl)).
Proof using add_ok emit_ok.
  intros H. unfold Run.
  pose proof (everywhere_runNamespaces 0 (Namespaces (options ctl)) false
                ctl H) as H1.
  destruct (runNamespaces 0 (Namespaces (options ctl)) false ctl)
    as [ctl1 [d1|r]]; simpl in *.
  - apply emit_ok; [auto|]. destruct d1; simpl; [done|].
    apply emit_ok; auto.
  - apply emit_ok; auto.
Qed.

End Everywhere.

(** The same for a property that every start respects, policy-checked or
    not: it holds across any sequence of actions. *)
Lemma everywhere_actions (I : Controller -> Prop) :
  (∀ ctl pod c initialAdd, I ctl -> I (addContainer ctl pod c initialAdd)) ->
  (∀ ctl pod c, I ctl -> I (deleteContainer ctl pod c)) ->
  ∀ ctl actions, I ctl -> I (performAll ctl actions).
Proof.
  intros Hadd Hdel ctl actions. unfold performAll. revert ctl.
  induction actions as [|a actions IH]; intros ctl H; simpl; [done|].
  apply IH. destruct a; simpl; auto.
  - apply everywhere_onInitialAdd; auto.
  - apply everywhere_onAdd; auto.
  - apply everywhere_onUpdate; auto.
  - apply everywhere_onDelete; auto.
Qed.

Lemma nothingStopped_refl ctl : nothingStopped ctl ctl.
Proof. by repeat split. Qed.

Lemma addContainer_nothingStopped ctl0 ctl pod c initialAdd :
  nothingStopped ctl0 ctl ->
  nothingStopped ctl0 (addContainer ctl pod c initialAdd).
Proof.
  intros (Hk & Hs & He). split; [|split].
  - intros key t Ht. by apply addContainer_keeps, Hk.
  - rewrite <- Hs. eapply grows_calls; [|apply addContainer_starts].
    intros e H. by apply startEvent_no_stop.
  - rewrite <- He. eapply grows_calls; [|apply addContainer_starts].
    intros e H. by apply startEvent_no_stop.
Qed.


(** X9: [onAdd] and [onInitialAdd] only ever start sessions: every
    registry entry stays as it is, no tailer is stopped and [OnExit] is
    not called. *)
Theorem add_handlers_never_stop ctl pod :
  nothingStopped ctl (onAdd ctl pod)
  ∧ nothingStopped ctl (fst (onInitialAdd ctl pod)).
Proof.
  split.
  - apply (everywhere_onAdd (nothingStopped ctl));
      [intros; by apply addContainer_nothingStopped | apply nothingStopped_refl].
  - apply (everywhere_onInitialAdd (nothingStopped ctl));
      [intros; by apply addContainer_nothingStopped | apply nothingStopped_refl].
Qed.


(** What [addContainer] puts into the registry. *)
Lemma addContainer_new_entry ctl pod c initialAdd key t :
  tailers (addContainer ctl pod c initialAdd) !! key = Some t ->
  tailers ctl !! key = Some t
  ∨ (key = buildKey pod c
     ∧ ContainerTailer.pod t = pod ∧ ContainerTailer.container t = c
     ∧ ∃ ctl2, options ctl2 = options ctl
               ∧ getStartTimestamp ctl2 pod c initialAdd
                 = (ContainerTailer.fromTimestamp t, true)).
Proof.
  unfold addContainer.
  destruct (tailers ctl !! buildKey pod c) as [t0|] eqn:Hk; [by left|].
  destruct (OnEnter (callbacks ctl) (trace ctl) pod c initialAdd); simpl;
    [|by left].
  destruct (getStartTimestamp _ pod c initialAdd) as [ts [|]] eqn:Hts;
    simpl; [|by left].
  destruct (decide (buildKey pod c = key)) as [<-|Hne].
  - rewrite lookup_insert_eq. intros [= <-]. right.
    repeat (split; [done|]). eexists. split; [|exact Hts]. done.
  - rewrite lookup_insert_ne by done. by left.
Qed.

Lemma deleteContainer_old_entry ctl pod c key t :
  tailers (deleteContainer ctl pod c) !! key = Some t ->
  tailers ctl !! key = Some t.
Proof.
  destruct (deleteContainer_cases ctl pod c) as [[_ ->]|(t0 & _ & -> & _)];
    [done|].
  intros H. apply lookup_delete_Some in H as [_ H]. done.
Qed.

Lemma addContainer_registryKeyed ctl pod c initialAdd :
  registryKeyed ctl -> registryKeyed (addContainer ctl pod c initialAdd).
Proof.
  intros H key t Ht.
  apply addContainer_new_entry in Ht as [Ht|(-> & -> & -> & _)]; auto.
Qed.

Lemma deleteContainer_registryKeyed ctl pod c :
  registryKeyed ctl -> registryKeyed (deleteContainer ctl pod c).
Proof. intros H key t Ht. apply deleteContainer_old_entry in Ht. auto. Qed.

(** X11: the registry stays keyed by the tailers' own identity: after any
    sequence of actions, and after [Run], every tailer is registered under
    the key built from the pod and the container it was constructed
    with. *)
Theorem registry_keyed_by_snapshot ctl :
  registryKeyed ctl ->
  (∀ actions, registryKeyed (performAll ctl actions))
  ∧ registryKeyed (fst (Run ctl)).
Proof.
  intros H. split.
  - intros actions. apply (everywhere_actions registryKeyed);
      auto using addContainer_registryKeyed, deleteContainer_registryKeyed.
  - apply (everywhere_Run registryKeyed);
      auto using addContainer_registryKeyed.
Qed.

(** X12: sessions only exist for what the policy admitted: after any
    sequence of pod notifications, and after [Run], the pod and container
    stored in every registered tailer pass the inclusion policy. *)
Theorem registry_passes_policy ctl :
  registryAll (passesPolicy ctl) ctl ->
  (∀ actions, forallb isNotification actions = true ->
              registryAll (passesPolicy ctl) (performAll ctl actions))
  ∧ registryAll (passesPolicy ctl) (fst (Run ctl)).
Proof.
  intros H.
  set (I := fun c => options c = options ctl
                     ∧ registryAll (passesPolicy ctl) c).
  assert (∀ c pod cn ia, shouldIncludeContainer c pod cn = true ->
            I c -> I (addContainer c pod cn ia)) as Hadd.
  { intros c pod cn ia Hin [Ho Hall]. split.
    - rewrite <- Ho. apply addContainer_static.
    - intros key t Ht.
      apply addContainer_new_entry in Ht as [Ht|(_ & Hp & Hc & _)];
        [by eapply Hall|].
      unfold passesPolicy. rewrite Hp, Hc.
      by rewrite <- (shouldIncludeContainer_options ctl c). }
  assert (∀ c pod cn, I c -> I (deleteContainer c pod cn)) as Hdel.
  { intros c pod cn [Ho Hall]. split.
    - rewrite <- Ho. apply deleteContainer_static.
    - intros key t Ht. apply deleteContainer_old_entry in Ht.
      by eapply Hall. }
  assert (I ctl) as HI by done.
  split.
  - intros actions Hn.
    by apply (everywhere_notifications I Hadd Hdel ctl actions Hn).
  - apply (everywhere_Run I Hadd); [|done]. intros c e _ [Ho Hall]. done.
Qed.

(** X13: with [SinceStart] every session started, by any action or by
    [Run], has no start timestamp; with [Since] alone every one has that
    instant. *)
Theorem registry_timestamps ctl :
  let expected :=
    if SinceStart (options ctl) then None else Since (options ctl) in
  (SinceStart (options ctl) = true ∨ is_Some (Since (options ctl))) ->
  registryAll (fun t => ContainerTailer.fromTimestamp t = expected) ctl ->
  (∀ actions,
     registryAll (fun t => ContainerTailer.fromTimestamp t = expected)
       (performAll ctl actions))
  ∧ registryAll (fun t => ContainerTailer.fromTimestamp t = expected)
      (fst (Run ctl)).
Proof.
  intros expected Hcfg H.
  set (I := fun c => options c = options ctl
                     ∧ registryAll (fun t => ContainerTailer.fromTimestamp t
                                             = expected) c).
  assert (∀ c pod cn ia, I c -> I (addContainer c pod cn ia)) as Hadd.
  { intros c pod cn ia [Ho Hall]. split.
    - rewrite <- Ho. apply addContainer_static.
    - intros key t Ht.
      apply addContainer_new_entry in Ht
        as [Ht|(_ & _ & _ & c2 & Ho2 & Hts)]; [by eapply Hall|].
      unfold getStartTimestamp in Hts. rewrite Ho2, Ho in Hts.
      subst expected.
      destruct (SinceStart (options ctl)); [by injection Hts|].
      destruct Hcfg as [|[s Hs]]; [done|]. rewrite Hs in *.
      by injection Hts. }
  assert (∀ c pod cn, I c -> I (deleteContainer c pod cn)) as Hdel.
  { intros c pod cn [Ho Hall]. split.
    - rewrite <- Ho. apply deleteContainer_static.
    - intros key t Ht. apply deleteContainer_old_entry in Ht.
      by eapply Hall. }
  assert (I ctl) as HI by done.
  split.
  - intros actions. by apply (everywhere_actions I Hadd Hdel ctl actions).
  - apply (everywhere_Run I); [auto | |done]. intros c e _ [Ho Hall]. done.
Qed.

Lemma addContainer_accounted ctl pod c initialAdd :
  accounted ctl -> accounted (addContainer ctl pod c initialAdd).
Proof.
  intros (Hsize & Hexit & Hrun).
  destruct (addContainer_cases ctl pod c initialAdd)
    as [[_ ->]|[(_ & Ht & Htr)|[(_ & Ht & Htr)|(Hk & ts & Ht & Htr)]]];
    [done|..]; unfold accounted; rewrite Ht, Htr;
    rewrite ?map_size_insert_None by done;
    unfold calls in *; simpl; repeat split; lia.
Qed.

Lemma deleteContainer_accounted ctl pod c :
  accounted ctl -> accounted (deleteContainer ctl pod c).
Proof.
  intros (Hsize & Hexit & Hrun).
  destruct (deleteContainer_cases ctl pod c)
    as [[_ ->]|(t & Hk & Ht & Htr)]; [done|].
  unfold accounted. rewrite Ht, Htr, map_size_delete_Some by eauto.
  assert (size (tailers ctl) ≠ 0) as Hpos.
  { intros H0. apply map_size_empty_inv in H0. rewrite H0 in Hk.
    by rewrite lookup_empty in Hk. }
  unfold calls in *; simpl; repeat split; lia.
Qed.

(** X14: the trace accounts for the registry: after any sequence of
    actions, and after [Run], the registered tailers are the constructed
    ones less the stopped ones, every constructed tailer was launched, and
    [OnExit] was called once per stop. *)
Theorem registry_accounted ctl :
  accounted ctl ->
  (∀ actions, accounted (performAll ctl actions))
  ∧ accounted (fst (Run ctl)).
Proof.
  intros H. split.
  - intros actions. apply (everywhere_actions accounted);
      auto using addContainer_accounted, deleteContainer_accounted.
  - apply (everywhere_Run accounted); auto using addContainer_accounted.
    intros c e He (Hsize & Hexit & Hrun). unfold accounted, calls in *.
    destruct He as [He|[->| ->]]; [destruct e|..]; done.
Qed.

(* ===================================================================== *)
(** * Further properties: [Run] *)
(* ===================================================================== *)

Lemma loopEvent_not_close nss e : loopEvent nss e -> isClose e = false.
Proof.
  intros [(pod & c & H)|(ns & _ & [->| ->])]; [|done..]. by destruct e.
Qed.

(** X15: on every way out of [Run] the stop channel is closed exactly
    once, and that is the last thing [Run] does. *)
Theorem Run_closes_stop_channel ctl :
  ∃ new, trace (fst (Run ctl)) = CloseStopCh :: new ++ trace ctl
         ∧ calls isClose new = 0.
Proof.
  pose proof (runNamespaces_grows 0 (Namespaces (options ctl)) false ctl)
    as (_ & _ & _ & _ & new & Htr & Hall).
  pose proof (calls_none isClose _ new (loopEvent_not_close _) Hall) as Hn.
  unfold Run.
  destruct (runNamespaces 0 (Namespaces (options ctl)) false ctl)
    as [ctl1 [d1|r]]; simpl in *.
  - destruct d1; simpl.
    + exists new. by rewrite Htr.
    + exists (CallOnNothingDiscovered :: new). rewrite Htr. split; [done|].
      unfold calls in *. simpl. done.
  - exists new. by rewrite Htr.
Qed.

Lemma runNamespaces_outcome i nss d ctl :
  match snd (runNamespaces i nss d ctl) with
  | inl _ => firstFailure (client ctl) i nss = None
  | inr r => firstFailure (client ctl) i nss = Some r
  end.
Proof.
  revert i d ctl. induction nss as [|ns rest IH]; intros i d ctl; simpl;
    [done|].
  assert (∀ items,
    match snd (runNamespaces (S i) rest
                 (snd (fold_left listedPod items (emit (CallList ns) ctl, d)))
                 (emit (GoInformerRun ns)
                    (fst (fold_left listedPod items
                            (emit (CallList ns) ctl, d))))) with
    | inl _ => firstFailure (client ctl) (S i) rest = None
    | inr r => firstFailure (client ctl) (S i) rest = Some r
    end) as Hpass.
  { intros items.
    destruct (listing_pass_grows ns rest items
                (emit (CallList ns) ctl, d) ctl eq_refl) as (_ & Hc & _).
    rewrite <- Hc. apply IH. }
  destruct (ListPods (client ctl) i ns) as [err|items|items|ty]; simpl;
    try done.
  - apply Hpass.
  - rewrite listedItem_loop. apply Hpass.
Qed.

(** X16: how [Run] ends is decided by the listing responses alone, not by
    the pods listed, the policy or the callbacks: it ends with the
    wrapped error or the panic of the first response that is not a
    listing, and with the context's error when there is none. *)
Theorem Run_outcome ctl :
  snd (Run ctl)
  = match firstFailure (client ctl) 0 (Namespaces (options ctl)) with
    | Some r => r
    | None => RunCtxErr
    end.
Proof.
  pose proof (runNamespaces_outcome 0 (Namespaces (options ctl)) false ctl)
    as H.
  unfold Run.
  destruct (runNamespaces 0 (Namespaces (options ctl)) false ctl)
    as [ctl1 [d1|r]]; simpl in *; by rewrite H.
Qed.

(** X17: when the listing for a namespace returns something of an
    unexpected type after the namespaces before it were listed, [Run]
    panics there: the stop channel is closed, the namespace is not
    subscribed, later namespaces are not listed, [OnNothingDiscovered] is
    not called and the registry is as the earlier namespaces left it. *)
Theorem Run_unexpected_type ctl pre ns post ty :
  Namespaces (options ctl) = pre ++ ns :: post ->
  forallb isListing (responsesFrom (client ctl) 0 pre) = true ->
  ListPods (client ctl) (length pre) ns = ListOtherType ty ->
  Run ctl
  = (emit CloseStopCh
       (emit (CallList ns) (fst (runNamespaces 0 pre false ctl))),
     RunPanic ("unexpected return type " +:+ ty +:+ " when listing pods"))
  ∧ calls isNothingDiscovered (trace (fst (Run ctl)))
    = calls isNothingDiscovered (trace ctl).
Proof.
  intros Hns Hpre Hodd.
  pose proof (runNamespaces_result 0 pre false ctl) as Hres.
  pose proof (runNamespaces_grows 0 pre false ctl) as Hgrow.
  assert (Run ctl
          = (emit CloseStopCh
               (emit (CallList ns) (fst (runNamespaces 0 pre false ctl))),
             RunPanic ("unexpected return type " +:+ ty
                       +:+ " when listing pods"))) as HRun.
  { unfold Run. rewrite Hns, runNamespaces_app.
    destruct (runNamespaces 0 pre false ctl) as [ctl1 [d1|r]]; simpl in *.
    - destruct Hgrow as (_ & Hc & _). by rewrite Hc, Hodd.
    - congruence. }
  split; [done|]. rewrite HRun. simpl.
  pose proof (grows_calls isNothingDiscovered _ _ _
                (loopEvent_not_nothing _) Hgrow) as Hcount.
  unfold calls in *. simpl. done.
Qed.

Lemma grows_filter which (P : Event -> Prop) ctl ctl' :
  (∀ e, P e -> which e = false) -> grows P ctl ctl' ->
  List.filter which (trace ctl') = List.filter which (trace ctl).
Proof.
  intros HP (_ & _ & _ & _ & new & -> & Hall).
  rewrite List.filter_app.
  replace (List.filter which new) with (@nil Event); [done|].
  symmetry. induction Hall as [|e l He _ IH]; simpl; [done|].
  by rewrite (HP e He).
Qed.

Lemma handler_event_not_bookkeeping e :
  loopEvent [] e -> isBookkeeping e = false.
Proof.
  intros [(pod & c & H)|(ns & Hns & _)]; [by destruct e|].
  by apply elem_of_nil in Hns.
Qed.

Lemma runNamespaces_order i nss d ctl d' :
  snd (runNamespaces i nss d ctl) = inl d' ->
  List.filter isBookkeeping (trace (fst (runNamespaces i nss d ctl)))
  = rev (subscriptions nss) ++ List.filter isBookkeeping (trace ctl).
Proof.
  revert i d ctl. induction nss as [|ns rest IH]; intros i d ctl; simpl;
    [done|].
  assert (∀ items,
    snd (runNamespaces (S i) rest
           (snd (fold_left listedPod items (emit (CallList ns) ctl, d)))
           (emit (GoInformerRun ns)
              (fst (fold_left listedPod items
                      (emit (CallList ns) ctl, d))))) = inl d' ->
    List.filter isBookkeeping
      (trace (fst (runNamespaces (S i) rest
           (snd (fold_left listedPod items (emit (CallList ns) ctl, d)))
           (emit (GoInformerRun ns)
              (fst (fold_left listedPod items
                      (emit (CallList ns) ctl, d)))))))
    = rev (CallList ns :: GoInformerRun ns :: subscriptions rest)
      ++ List.filter isBookkeeping (trace ctl)) as Hpass.
  { intros items H. rewrite (IH _ _ _ H). simpl.
    destruct (listedPod_loop items (emit (CallList ns) ctl, d)) as [Hg _].
    rewrite (grows_filter isBookkeeping _ _ _
               handler_event_not_bookkeeping Hg).
    simpl. by rewrite <- !app_assoc. }
  destruct (ListPods (client ctl) i ns) as [err|items|items|ty]; simpl;
    try done.
  - apply Hpass.
  - rewrite listedItem_loop. apply Hpass.
Qed.

(** X18: when every listing returns, [Run] lists the namespaces once each
    in the configured order and subscribes each one after its listing and
    before the next namespace is listed. *)
Theorem Run_lists_in_order ctl :
  forallb isListing
    (responsesFrom (client ctl) 0 (Namespaces (options ctl))) = true ->
  List.filter isBookkeeping (trace (fst (Run ctl)))
  = rev (subscriptions (Namespaces (options ctl)))
    ++ List.filter isBookkeeping (trace ctl).
Proof.
  intros Hall.
  pose proof (runNamespaces_result 0 (Namespaces (options ctl)) false ctl)
    as Hres.
  pose proof (runNamespaces_order 0 (Namespaces (options ctl)) false ctl)
    as Hord.
  unfold Run.
  destruct (runNamespaces 0 (Namespaces (options ctl)) false ctl)
    as [ctl1 [d1|r]]; simpl in *; [|congruence].
  destruct d1; simpl; by apply (Hord _ eq_refl).
Qed.

(* ===================================================================== *)
(** * Further properties: what gets registered *)
(* ===================================================================== *)

(** On an initial add the timestamp always resolves. *)
Lemma getStartTimestamp_initial_ok ctl pod container :
  snd (getStartTimestamp ctl pod container true) = true.
Proof. unfold getStartTimestamp. by repeat case_match. Qed.

Lemma included_options ctl ctl' pod :
  options ctl' = options ctl -> included ctl' pod = included ctl pod.
Proof.
  intros Ho. unfold included.
  apply filter_ext. intros c. by apply shouldIncludeContainer_options.
Qed.

Lemma addAll_static initialAdd pod ctl cs :
  options (addAll initialAdd pod ctl cs) = options ctl
  ∧ callbacks (addAll initialAdd pod ctl cs) = callbacks ctl.
Proof.
  unfold addAll.
  apply (fold_left_rel (fun c c' => options c' = options c
                                    ∧ callbacks c' = callbacks c));
    [done | intros ? ? ? [? ?] [? ?]; split; congruence |].
  intros ctl' c _. destruct (addContainer_static ctl' pod c initialAdd)
    as (? & _ & ? & _). done.
Qed.

Lemma addAll_keeps initialAdd pod ctl cs key :
  is_Some (tailers ctl !! key) ->
  is_Some (tailers (addAll initialAdd pod ctl cs) !! key).
Proof.
  unfold addAll.
  apply (fold_left_rel (fun c c' => is_Some (tailers c !! key)
                                    -> is_Some (tailers c' !! key))); auto.
  intros ctl' c _ [t Ht]. exists t. by apply addContainer_keeps.
Qed.

Lemma addAll_registers initialAdd pod ctl0 cs ctl c :
  alwaysAccepts ctl0 ->
  options ctl = options ctl0 -> callbacks ctl = callbacks ctl0 ->
  snd (getStartTimestamp ctl0 pod c initialAdd) = true ->
  c ∈ cs ->
  is_Some (tailers (addAll initialAdd pod ctl cs) !! buildKey pod c).
Proof.
  intros Hacc. revert ctl.
  induction cs as [|c0 cs IH]; intros ctl Ho Hc Hts Hin.
  - by apply elem_of_nil in Hin.
  - change (addAll initialAdd pod ctl (c0 :: cs))
      with (addAll initialAdd pod (addContainer ctl pod c0 initialAdd) cs).
    destruct (addContainer_static ctl pod c0 initialAdd) as (Ho' & _ & Hc' & _).
    apply elem_of_cons in Hin as [->|Hin].
    + apply addAll_keeps, addContainer_registers.
      * rewrite Hc. apply Hacc.
      * by rewrite (getStartTimestamp_ok_options ctl0 ctl).
    + apply IH; congruence.
Qed.

(** X19: when [OnEnter] never vetoes, every container of the pod that
    passes the inclusion policy is registered after [onInitialAdd]; after
    [onAdd] it is registered if its start timestamp resolves. *)
Theorem add_handlers_register_included ctl pod container :
  alwaysAccepts ctl ->
  container ∈ included ctl pod ->
  is_Some (tailers (fst (onInitialAdd ctl pod)) !! buildKey pod container)
  ∧ (snd (getStartTimestamp ctl pod container false) = true ->
     is_Some (tailers (onAdd ctl pod) !! buildKey pod container)).
Proof.
  intros Hacc Hin. rewrite onInitialAdd_included, onAdd_included. simpl.
  split.
  - apply (addAll_registers true pod ctl); auto.
    apply getStartTimestamp_initial_ok.
  - intros Hts. by apply (addAll_registers false pod ctl).
Qed.






Lemma buildKey_same_name pod c c' :
  Container.Name c = Container.Name c' -> buildKey pod c = buildKey pod c'.
Proof. intros H. unfold buildKey. by rewrite H. Qed.

(** X21: when a pod is no longer Pending or Running, [onUpdate] leaves no
    regular container registered for which the pod carries a status
    entry. *)
Theorem onUpdate_completed_pod ctl pod container :
  PodStatus.Phase (Pod.Status pod) ≠ PodPending ->
  PodStatus.Phase (Pod.Status pod) ≠ PodRunning ->
  container ∈ PodSpec.Containers (Pod.Spec pod) ->
  (∃ s, s ∈ PodStatus.InitContainerStatuses (Pod.Status pod)
            ++ PodStatus.ContainerStatuses (Pod.Status pod)
      ∧ ContainerStatus.Name s = Container.Name container) ->
  tailers (onUpdate ctl pod) !! buildKey pod container = None.
Proof.
  intros Hp Hr Hin (s & Hs & Hn).
  destruct (findContainer (PodSpec.Containers (Pod.Spec pod))
              (Container.Name container)) as [c0|] eqn:Hf.
  2:{ exfalso. by apply (proj1 (findContainer_None _ _) Hf container). }
  destruct (findContainer_Some _ _ _ Hf) as [_ Hn0].
  rewrite <- (buildKey_same_name pod c0 container Hn0).
  assert (findContainer (PodSpec.Containers (Pod.Spec pod))
            (Container.Name c0) = Some c0) as Hfirst by (by rewrite Hn0).
  pose proof (update_loop_excluded ctl pod c0 Hfirst
                (allContainerStatusesForPod pod) ctl
                (shouldIncludeContainer_phase_gate ctl pod c0 Hp Hr) eq_refl)
    as (H & _).
  simpl in H. unfold onUpdate. rewrite H.
  assert (existsb (fun s => String.eqb (ContainerStatus.Name s)
                              (Container.Name c0))
            (allContainerStatusesForPod pod) = true) as ->; [|done].
  apply existsb_exists. exists s. split.
  - apply list_elem_of_In. rewrite allContainerStatusesForPod_eq.
    apply elem_of_app. by right.
  - apply String.eqb_eq. congruence.
Qed.

(** X22: a repeated add notification is harmless: when every container of
    the pod that passes the inclusion policy is already registered,
    [onAdd] and [onInitialAdd] change nothing and call nothing; so, when
    [OnEnter] never vetoes, [onAdd] for a pod right after its
    [onInitialAdd] is a no-op. *)
Theorem add_handlers_idempotent ctl pod :
  ((∀ c, c ∈ included ctl pod -> is_Some (tailers ctl !! buildKey pod c)) ->
   onAdd ctl pod = ctl ∧ fst (onInitialAdd ctl pod) = ctl)
  ∧ (alwaysAccepts ctl ->
     onAdd (fst (onInitialAdd ctl pod)) pod = fst (onInitialAdd ctl pod)).
Proof.
  assert (∀ ctl', (∀ c, c ∈ included ctl' pod ->
                        is_Some (tailers ctl' !! buildKey pod c)) ->
            onAdd ctl' pod = ctl' ∧ fst (onInitialAdd ctl' pod) = ctl')
    as Hnoop.
  { intros ctl' Hreg. rewrite onAdd_included, onInitialAdd_included. simpl.
    unfold addAll.
    split; apply fold_left_fixed; intros c Hc;
      by apply addContainer_present, Hreg. }
  split; [apply Hnoop|].
  intros Hacc. apply Hnoop. intros c Hc.
  rewrite onInitialAdd_included in *. simpl in *.
  destruct (addAll_static true pod ctl (included ctl pod)) as [Ho _].
  rewrite (included_options ctl) in Hc by done.
  apply (addAll_registers true pod ctl); auto.
  apply getStartTimestamp_initial_ok.
Qed.

Lemma addContainer_startsGated ctl pod c initialAdd :
  startsGated (trace ctl) ->
  startsGated (trace (addContainer ctl pod c initialAdd)).
Proof.
  intros H.
  destruct (addContainer_cases ctl pod c initialAdd)
    as [[_ ->]|[(_ & _ & ->)|[(_ & _ & ->)|(_ & ts & _ & ->)]]];
    simpl; try done.
  split; [|done]. by eexists _, _.
Qed.

Lemma deleteContainer_startsGated ctl pod c :
  startsGated (trace ctl) -> startsGated (trace (deleteContainer ctl pod c)).
Proof.
  intros H.
  destruct (deleteContainer_cases ctl pod c) as [[_ ->]|(t & _ & _ & ->)];
    done.
Qed.

(** X23: no session without the embedder's consent: after any sequence of
    actions, and after [Run], every tailer in the trace was constructed
    directly after its start timestamp was resolved, and that directly
    after [OnEnter] had returned true for the same pod and container. *)
Theorem starts_follow_OnEnter ctl :
  startsGated (trace ctl) ->
  (∀ actions, startsGated (trace (performAll ctl actions)))
  ∧ startsGated (trace (fst (Run ctl))).
Proof.
  intros H. split.
  - intros actions.
    apply (everywhere_actions (fun c => startsGated (trace c)));
      auto using addContainer_startsGated, deleteContainer_startsGated.
  - apply (everywhere_Run (fun c => startsGated (trace c)));
      auto using addContainer_startsGated.
    intros c e He Hc. destruct He as [He|[->| ->]]; [destruct e|..]; done.
Qed.

(* ===================================================================== *)
(** * The further properties at the sample objects *)
(* ===================================================================== *)

Lemma buildKey_injective_witness :
  Container.Name Sample.c1 = Container.Name (Container.mk "c1" "alpine").
Proof.
  apply (buildKey_injective Sample.p1 Sample.p1 Sample.c1
           (Container.mk "c1" "alpine")); reflexivity.
Defined.


Lemma handlers_ignore_unreported_witness :
  onAdd Sample.started SampleMore.p1Succeeded = Sample.started
  ∧ onUpdate Sample.started SampleMore.unreported = Sample.started.
Proof.
  split.
  - destruct (handlers_ignore_unreported Sample.started
                SampleMore.p1Succeeded) as [Hphase _].
    apply Hphase; discriminate.
  - destruct (handlers_ignore_unreported Sample.started
                SampleMore.unreported) as [_ Hnone].
    apply Hnone; reflexivity.
Defined.

Lemma onUpdate_steady_witness :
  onUpdate Sample.started Sample.p1 = Sample.started.
Proof.
  apply onUpdate_steady. intros s c Hs Hf.
  rewrite allContainerStatusesForPod_eq in Hs. simpl in Hs.
  repeat (apply elem_of_cons in Hs as [->|Hs]);
    try (by apply elem_of_nil in Hs);
    vm_compute in Hf; try discriminate;
    injection Hf as <-; vm_compute; eauto.
Defined.

Lemma onDelete_clears_regular_witness :
  tailers (onDelete Sample.started Sample.p1) !! "ns1/p1/c2" = None
  ∧ onDelete (onDelete Sample.started Sample.p1) Sample.p1
    = onDelete Sample.started Sample.p1.
Proof.
  destruct (onDelete_clears_regular Sample.started Sample.p1)
    as (Hclear & _ & Hagain).
  split; [|exact Hagain].
  apply (Hclear Sample.c2). right. left.
Defined.

Lemma onUpdate_stops_excluded_witness :
  tailers (onUpdate Sample.started SampleMore.p1Succeeded) !! "ns1/p1/c1"
  = None
  ∧ calls (isStopOf "ns1/p1/c1")
      (trace (onUpdate Sample.started SampleMore.p1Succeeded))
    = calls (isStopOf "ns1/p1/c1") (trace Sample.started) + 1.
Proof.
  destruct (onUpdate_stops_excluded Sample.started SampleMore.p1Succeeded
              (Sample.runningSince "c1" Sample.t2) Sample.c1)
    as (Hk & Hs & _).
  - rewrite allContainerStatusesForPod_eq. simpl. do 5 right. left.
  - reflexivity.
  - reflexivity.
  - split; [exact Hk | exact Hs].
Defined.

Lemma onUpdate_keeps_included_witness :
  tailers (onUpdate Sample.started Sample.p1) !! "ns1/p1/c1"
  = Some (NewContainerTailer Sample.p1 Sample.c1
            (Some (time.mkTime 1700000995 0))).
Proof.
  destruct (onUpdate_keeps_included Sample.started Sample.p1 Sample.c1
              eq_refl eq_refl) as (Hk & _).
  apply Hk. vm_compute. reflexivity.
Defined.

Lemma onUpdate_starts_included_witness :
  is_Some (tailers (onUpdate SampleMore.empty Sample.p1) !! "ns1/p1/c1").
Proof.
  apply (onUpdate_starts_included SampleMore.empty Sample.p1
           (Sample.runningSince "c1" Sample.t2) Sample.c1).
  - rewrite allContainerStatusesForPod_eq. simpl. do 5 right. left.
  - reflexivity.
  - reflexivity.
  - intros tr pod c b. reflexivity.
  - reflexivity.
Defined.

Lemma registry_keyed_by_snapshot_witness :
  registryKeyed (fst (Run SampleMore.twoNamespaces))
  ∧ registryKeyed
      (performAll SampleMore.empty
         [DoAdd Sample.p1; DoUpdate SampleMore.p1Succeeded]).
Proof.
  destruct (registry_keyed_by_snapshot SampleMore.twoNamespaces) as [_ Hrun].
  { intros key t Hk. simpl in Hk. rewrite lookup_empty in Hk. discriminate. }
  destruct (registry_keyed_by_snapshot SampleMore.empty) as [Hall _].
  { intros key t Hk. simpl in Hk. rewrite lookup_empty in Hk. discriminate. }
  split; [exact Hrun | apply Hall].
Defined.

Lemma registry_passes_policy_witness :
  registryAll (passesPolicy SampleMore.twoNamespaces)
    (fst (Run SampleMore.twoNamespaces)).
Proof.
  apply (registry_passes_policy SampleMore.twoNamespaces).
  intros key t Hk. simpl in Hk. rewrite lookup_empty in Hk. discriminate.
Defined.

Lemma registry_timestamps_witness :
  registryAll (fun t => ContainerTailer.fromTimestamp t = None)
    (fst (Run Sample.sinceStart))
  ∧ registryAll (fun t => ContainerTailer.fromTimestamp t = Some Sample.t0)
      (performAll Sample.since [DoAdd Sample.p1]).
Proof.
  split.
  - apply (registry_timestamps Sample.sinceStart); [by left|].
    intros key t Hk. simpl in Hk. rewrite lookup_empty in Hk. discriminate.
  - apply (registry_timestamps Sample.since); [right; by eexists|].
    intros key t Hk. simpl in Hk. rewrite lookup_empty in Hk. discriminate.
Defined.

Lemma registry_accounted_witness :
  accounted (fst (Run SampleMore.twoNamespaces)).
Proof.
  apply (registry_accounted SampleMore.twoNamespaces).
  repeat split.
Defined.

Lemma Run_unexpected_type_witness :
  snd (Run SampleMore.odd)
  = RunPanic "unexpected return type *v1.Status when listing pods".
Proof.
  destruct (Run_unexpected_type SampleMore.odd ["ns1"] "ns2" [] "*v1.Status"
              eq_refl eq_refl eq_refl) as [HRun _].
  rewrite HRun. reflexivity.
Defined.

Lemma Run_lists_in_order_witness :
  List.filter isBookkeeping (trace (fst (Run SampleMore.twoNamespaces)))
  = [GoInformerRun "ns2"; CallList "ns2"; GoInformerRun "ns1"; CallList "ns1"].
Proof.
  exact (Run_lists_in_order SampleMore.twoNamespaces eq_refl).
Defined.

Lemma add_handlers_register_included_witness :
  is_Some (tailers (fst (onInitialAdd SampleMore.empty Sample.p1))
             !! "ns1/p1/c2").
Proof.
  apply (add_handlers_register_included SampleMore.empty Sample.p1 Sample.c2).
  - intros tr pod c b. reflexivity.
  - change (Sample.c2 ∈ [Sample.initA; Sample.c1; Sample.c2]).
    right. right. left.
Defined.


Lemma onUpdate_completed_pod_witness :
  tailers (onUpdate Sample.started SampleMore.p1Succeeded) !! "ns1/p1/c2"
  = None.
Proof.
  apply (onUpdate_completed_pod Sample.started SampleMore.p1Succeeded
           Sample.c2); [discriminate | discriminate | |].
  - right. left.
  - exists (Sample.waiting "c2"). split; [|reflexivity].
    simpl. do 3 right. left.
Defined.

Lemma add_handlers_idempotent_witness :
  onAdd (fst (onInitialAdd SampleMore.empty Sample.p1)) Sample.p1
  = fst (onInitialAdd SampleMore.empty Sample.p1).
Proof.
  apply (add_handlers_idempotent SampleMore.empty Sample.p1).
  intros tr pod c b. reflexivity.
Defined.

Lemma starts_follow_OnEnter_witness :
  startsGated (trace (fst (Run SampleMore.twoNamespaces))).
Proof.
  apply (starts_follow_OnEnter SampleMore.twoNamespaces). exact Logic.I.
Defined.
